(** * angular-setup: the navigation guard, the token check and the state annotator

    A shallow embedding of the three functions of [src/index.js] that carry
    the behaviour of the package:

    - [check]              (index.js, lines 64-81, inside [AngularSetup.prototype.auth]),
    - [onStateChange]      (index.js, lines 230-238),
    - [authenticateState]  (index.js, lines 242-302),

    and, around them, of the run block of [auth] with [refresh] (lines
    83-89), the handler installed by [defaultRun] (lines 183-186) and the
    builder itself: the constructor, [module], [config], [run], [state],
    [auth], [use] and [done] (module [Builder]).

    JavaScript values are a small inductive type, the side effects of the
    functions (calls to [debug], [event.preventDefault()], assignments to
    [window.location], [document.title] and the root scope, the call of the
    router) are recorded in a trace, and exceptions are an explicit
    completion.  Everything is executable. *)

From Stdlib Require Import List String Ascii ZArith Bool Lia DecimalString.
From Stdlib Require Import Permutation.
Import ListNotations.

Set Warnings "-register-all".

Local Open Scope string_scope.
Local Open Scope list_scope.

(** ** JavaScript values *)

(** The values the three functions inspect: the primitives, plain objects
    (their own data properties, in order; a lookup takes the first binding of
    a key) and arrays (dense).  Numbers are the integers that a double holds
    exactly (magnitude below 2^53); NaN, fractions and infinities are outside
    the model, and so are functions, object identity and objects that
    override the conversions of [Object.prototype]. *)
Inductive value : Type :=
| VUndef
| VNull
| VBool (b : bool)
| VNum (n : Z)
| VStr (s : string)
| VObj (props : list (string * value))
| VArr (elems : list value).

Definition props : Type := list (string * value).

(** ToBoolean: [undefined], [null], [false], [0] and the empty string are
    falsy, everything else (every object and array included) is truthy. *)
Definition truthy (v : value) : bool :=
  match v with
  | VUndef | VNull => false
  | VBool b => b
  | VNum n => negb (n =? 0)%Z
  | VStr s => negb (s =? "")
  | VObj _ | VArr _ => true
  end.

(** [a || b] on values. *)
Definition or_else (a b : value) : value := if truthy a then a else b.

Definition nullish (v : value) : bool :=
  match v with
  | VUndef | VNull => true
  | _ => false
  end.

Fixpoint lookup (k : string) (ps : props) : value :=
  match ps with
  | [] => VUndef
  | (k', v) :: rest => if k =? k' then v else lookup k rest
  end.

(** The value of [v.k] when [v] is neither [undefined] nor [null], for the
    property names the source reads ([name], [url], [data], [authenticate],
    [claims], [type], [value], [redirect], [state], [title], [expires_at]):
    none of them is defined on the prototypes of strings, numbers, booleans,
    arrays or plain objects, so only an object's own properties answer. *)
Definition field (v : value) (k : string) : value :=
  match v with
  | VObj ps => lookup k ps
  | _ => VUndef
  end.

(** Strict equality [===] on the values of the model.  Two object or array
    operands are equal in JavaScript exactly when they are the same object;
    the model has no identity and takes two such operands as distinct
    objects. *)
Definition strict_eq (x y : value) : bool :=
  match x, y with
  | VUndef, VUndef => true
  | VNull, VNull => true
  | VBool a, VBool b => Bool.eqb a b
  | VNum a, VNum b => (a =? b)%Z
  | VStr a, VStr b => (a =? b)
  | _, _ => false
  end.

(** ** Exceptions, effects and the computation monad *)

Inductive exn : Type :=
| TypeError
| ReferenceError
| Error (msg : string).

Inductive effect : Type :=
| Debug (fmt : string) (args : list value)   (* debug(fmt, args...) *)
| PreventDefault                             (* event.preventDefault() *)
| SetLocation (v : value)                    (* window.location = v *)
| StateGo (v : value)                        (* self.$state.go(v) *)
| SetTitle (v : value)                       (* document.title = v *)
| SetStateName (v : value)                   (* $rootScope.stateName = v *)
| SetToken (v : value).                      (* $rootScope.token = v *)

Inductive completion (A : Type) : Type :=
| Normal (a : A)
| Throw (e : exn).
Arguments Normal {A} a.
Arguments Throw {A} e.

(** A computation is the trace of the effects it performed, oldest first, and
    how it completed.  The effects performed before an exception stay in the
    trace. *)
Definition js (A : Type) : Type := (list effect * completion A)%type.

Definition ret {A} (a : A) : js A := ([], Normal a).
Definition throw {A} (e : exn) : js A := ([], Throw e).
Definition emit (e : effect) : js unit := ([e], Normal tt).

Definition bind {A B} (m : js A) (k : A -> js B) : js B :=
  match m with
  | (t, Normal a) => let (t', r) := k a in (t ++ t', r)
  | (t, Throw e) => (t, Throw e)
  end.

Notation "x <- m ;; k" := (bind m (fun x => k))
  (at level 61, m at next level, right associativity).
Notation "m ;; k" := (bind m (fun _ => k))
  (at level 61, right associativity).

Definition trace {A} (m : js A) : list effect := fst m.
Definition outcome {A} (m : js A) : completion A := snd m.

(** [v.k]: reading a property of [undefined] or [null] is a TypeError. *)
Definition get (v : value) (k : string) : js value :=
  if nullish v then throw TypeError else ret (field v k).

Definition debug (fmt : string) (args : list value) : js unit :=
  emit (Debug fmt args).

(** [arr.forEach(f)], where the callback updates the variables [S] it closes
    over.  A thrown exception leaves the loop. *)
Fixpoint forEach {S} (f : S -> value -> js S) (l : list value) (s : S) : js S :=
  match l with
  | [] => ret s
  | x :: rest => s' <- f s x ;; forEach f rest s'
  end.

(** [v.forEach(f)] for a value [v] that was read from a property: arrays
    iterate; [undefined] and [null] have no properties and the other values
    of the model have no callable [forEach], both TypeErrors. *)
Definition value_forEach {S} (v : value) (f : S -> value -> js S) (s : S) : js S :=
  match v with
  | VArr l => forEach f l s
  | _ => throw TypeError
  end.

(** ** String conversions *)

Definition dq : string := String "034" "".

Definition string_of_Z (n : Z) : string := NilZero.string_of_int (Z.to_int n).

(** ToString, as the operator [+] applies it to its right operand when the
    left one is a string.  A plain object prints as [[object Object]]
    (objects of the model keep the conversions of [Object.prototype]: no own
    property is named [toString] or [valueOf]); an array joins the conversions
    of its elements with commas, [undefined] and [null] elements giving the
    empty string. *)
Fixpoint to_string (v : value) : string :=
  match v with
  | VUndef => "undefined"
  | VNull => "null"
  | VBool true => "true"
  | VBool false => "false"
  | VNum n => string_of_Z n
  | VStr s => s
  | VObj _ => "[object Object]"
  | VArr l =>
      (fix join (l : list value) : string :=
         match l with
         | [] => ""
         | x :: rest =>
             let sx := if nullish x then "" else to_string x in
             match rest with
             | [] => sx
             | _ :: _ => (sx ++ "," ++ join rest)%string
             end
         end) l
  end.

(** [s + v] for a string [s]. *)
Definition concat_str (s : string) (v : value) : value :=
  VStr (s ++ to_string v)%string.

(** [.replace(/\./g, '-')]: every dot becomes a dash. *)
Definition dash (c : ascii) : ascii :=
  if Ascii.eqb c "."%char then "-"%char else c.

Fixpoint replace_dots (s : string) : string :=
  match s with
  | EmptyString => EmptyString
  | String c rest => String (dash c) (replace_dots rest)
  end.

(** [v.replace(/\./g, '-')] on a value: only strings have the method. *)
Definition replace_dots_value (v : value) : js value :=
  match v with
  | VStr s => ret (VStr (replace_dots s))
  | _ => throw TypeError
  end.

(** ** The format strings of the calls to [debug] *)

Definition fmt_checking : string := "checking token".
Definition fmt_changed : string := "token changed".
Definition fmt_state_change : string :=
  "%s : state change " ++ dq ++ "%s" ++ dq.
Definition fmt_unauth : string :=
  "nav to " ++ dq ++ "%s" ++ dq ++ " (unauth)".
Definition fmt_login : string :=
  "nav to " ++ dq ++ "%s" ++ dq ++ " : requires auth - going to login".
Definition fmt_found : string :=
  "claim found " ++ dq ++ "%s" ++ dq ++ " with value " ++ dq ++ "%s" ++ dq.
Definition fmt_redirect : string :=
  "claim NOT found " ++ dq ++ "%s" ++ dq ++ " with value " ++ dq ++ "%s" ++ dq
    ++ " - redirecting to %s".
Definition fmt_state : string :=
  "claim NOT found " ++ dq ++ "%s" ++ dq ++ " with value " ++ dq ++ "%s" ++ dq
    ++ " - redirecting to state %s".
Definition fmt_nav : string :=
  "nav to " ++ dq ++ "%s" ++ dq.

(** ** check (index.js 64-81) *)

(** [getToken] is the accessor the caller of [auth] supplies, here the
    computation its call performs; [origToken] is what [$rootScope.token]
    holds when [check] runs. *)
Definition check (getToken : js value) (origToken : value) : js unit :=
  debug fmt_checking [] ;;
  token <- getToken ;;
  if negb (truthy token) && negb (truthy origToken) then ret tt
  else
    let token := or_else token (VObj []) in
    let origToken := or_else origToken (VObj []) in
    t_exp <- get token "expires_at" ;;
    o_exp <- get origToken "expires_at" ;;
    if strict_eq t_exp o_exp then ret tt
    else
      debug fmt_changed [token] ;;
      emit (SetToken token).

(** ** onStateChange (index.js 230-238) *)

Definition onStateChange (name : value) (toState : value) : js unit :=
  n <- get toState "name" ;;
  if negb (truthy n) then ret tt
  else
    debug fmt_state_change [name; n] ;;
    d <- get toState "data" ;;
    (if truthy d
     then t <- get d "title" ;;
          if truthy t then emit (SetTitle t) else ret tt
     else ret tt) ;;
    r <- replace_dots_value (or_else n (VStr "")) ;;
    emit (SetStateName r).

(** ** authenticateState (index.js 242-302) *)

(** What the free identifier [self] of [authenticateState] denotes.  The
    function is declared at the top level of the module, where no [self] is in
    scope (the [var self] of [defaultRun] and of [done] are local to them), so
    the name is looked up in the global scope:
    - [SelfUndeclared]: there is no global [self] (CommonJS under Node);
    - [SelfNoRouter]: [self] is the global object (the window) and its
      [$state] property is [undefined], or has no callable [go];
    - [SelfRouter]: the page has published the router as the global
      [$state], so that [self.$state.go] is the router's [go]. *)
Inductive global_self : Type :=
| SelfUndeclared
| SelfNoRouter
| SelfRouter.

(** [self.$state.go(claim.state)]: the callee is evaluated before the
    argument. *)
Definition self_state_go (self : global_self) (claim : value) : js unit :=
  match self with
  | SelfUndeclared => throw ReferenceError
  | SelfNoRouter => throw TypeError
  | SelfRouter => s <- get claim "state" ;; emit (StateGo s)
  end.

Definition missing_fallback : string :=
  "somebody didnt specify a claim.state or claim.redirect".

Section Guard.

(** JavaScript's [==].  Its coercions (StringToNumber, ToPrimitive) and its
    comparison of objects by identity are not expressible over [value] in
    full; nothing in the guard depends on which values it relates, so the
    guard is developed for an arbitrary [==]. *)
Variable loose_eq : value -> value -> bool.

(** The callback of [token.claims.forEach] (lines 267-272); [found] is the
    variable it closes over. *)
Definition match_entry (claim : value) (found : bool) (c : value) : js bool :=
  if found then ret found
  else
    ct <- get claim "type" ;;
    ty <- get c "type" ;;
    if loose_eq ct ty
    then cv <- get claim "value" ;;
         v <- get c "value" ;;
         if loose_eq cv v then ret true else ret found
    else ret found.

(** The callback of [claims.forEach] (lines 263-296); [claimFailed] is the
    variable it closes over. *)
Definition check_claim (self : global_self) (token : value)
           (claimFailed : bool) (claim : value) : js bool :=
  if claimFailed then ret claimFailed
  else
    tc <- get token "claims" ;;
    found <- value_forEach tc (match_entry claim) false ;;
    if found
    then ct <- get claim "type" ;;
         cv <- get claim "value" ;;
         debug fmt_found [ct; cv] ;;
         ret claimFailed
    else
      r <- get claim "redirect" ;;
      if truthy r
      then emit PreventDefault ;;
           ct <- get claim "type" ;;
           cv <- get claim "value" ;;
           debug fmt_redirect [ct; cv; r] ;;
           emit (SetLocation r) ;;
           ret true
      else
        s <- get claim "state" ;;
        if truthy s
        then emit PreventDefault ;;
             ct <- get claim "type" ;;
             cv <- get claim "value" ;;
             debug fmt_state [ct; cv; s] ;;
             self_state_go self claim ;;
             ret true
        else throw (Error missing_fallback).

Definition authenticateState (self : global_self) (token toState : value)
  : js unit :=
  d <- get toState "data" ;;
  let data := or_else d (VObj []) in
  authenticate <- get data "authenticate" ;;
  if negb (truthy authenticate)
  then n <- get toState "name" ;;
       debug fmt_unauth [n]
  else if negb (truthy token)
  then emit PreventDefault ;;
       n <- get toState "name" ;;
       debug fmt_login [n] ;;
       u <- get toState "url" ;;
       emit (SetLocation (concat_str "/login?redirect=" u))
  else
    cl <- get data "claims" ;;
    let claims := or_else cl (VArr []) in
    _ <- value_forEach claims (check_claim self token) false ;;
    if truthy token
    then n <- get toState "name" ;;
         debug fmt_nav [n]
    else ret tt.

(** The handler of [$stateChangeStart] that [defaultRun] installs
    (lines 183-186).  [name] is [self.name] for the [self] of [defaultRun],
    the builder; [global] is what [self] denotes inside
    [authenticateState]. *)
Definition on_stateChangeStart (global : global_self)
           (name token toState : value) : js unit :=
  onStateChange name toState ;;
  authenticateState global token toState.

End Guard.

(** ** The vocabulary of the specification *)

(** [toState.data || {}], the [authenticate] flag and the requirement list
    [data.claims || []] of a target state, and the claim collection of a
    token. *)
Definition state_data (toState : value) : value :=
  or_else (field toState "data") (VObj []).
Definition requires_auth (toState : value) : bool :=
  truthy (field (state_data toState) "authenticate").
Definition required_claims (toState : value) : value :=
  or_else (field (state_data toState) "claims") (VArr []).
Definition token_claims (token : value) : value := field token "claims".

(** Every element of the list has properties (is neither [undefined] nor
    [null]). *)
Definition records (l : list value) : bool :=
  forallb (fun v => negb (nullish v)) l.

(** The two ways of sending the user elsewhere, and the cancellation of the
    navigation event. *)
Definition is_redirect (e : effect) : bool :=
  match e with
  | SetLocation _ | StateGo _ => true
  | _ => false
  end.
Definition is_cancel (e : effect) : bool :=
  match e with
  | PreventDefault => true
  | _ => false
  end.
Definition is_debug (e : effect) : bool :=
  match e with
  | Debug _ _ => true
  | _ => false
  end.
Definition fired (t : list effect) : list effect := filter is_redirect t.
Definition cancels (t : list effect) : nat := List.length (filter is_cancel t).
Definition quiet (t : list effect) : bool := forallb is_debug t.

(** The entries the guard writes to the log. *)
Definition found_log (claim : value) : effect :=
  Debug fmt_found [field claim "type"; field claim "value"].
Definition redirect_log (claim : value) : effect :=
  Debug fmt_redirect
        [field claim "type"; field claim "value"; field claim "redirect"].
Definition state_log (claim : value) : effect :=
  Debug fmt_state
        [field claim "type"; field claim "value"; field claim "state"].
Definition nav_log (toState : value) : effect :=
  Debug fmt_nav [field toState "name"].

(** The two completions of [check]: the store left alone, and [v] stored. *)
Definition unchanged : js unit := ([Debug fmt_checking []], Normal tt).
Definition stored (v : value) : js unit :=
  ([Debug fmt_checking []; Debug fmt_changed [v]; SetToken v], Normal tt).

(** Whether a token carries an expiry marker. *)
Definition has_expiry (token : value) : bool :=
  negb (strict_eq (field token "expires_at") VUndef).

Section Membership.

Variable loose_eq : value -> value -> bool.

(** A requirement is met by an entry [c] of the token's claims when both
    its [type] and its [value] are loosely equal to the entry's, and holds
    in a claim collection when some entry meets it. *)
Definition matches (claim c : value) : bool :=
  loose_eq (field claim "type") (field c "type")
  && loose_eq (field claim "value") (field c "value").
Definition holds (cs : list value) (claim : value) : bool :=
  existsb (matches claim) cs.

End Membership.

(** The fallback an unmet requirement asks for: its [redirect] when it has
    one, else its [state], which reaches the router only when [self.$state] is
    the router. *)
Definition fallback (self : global_self) (claim : value) : list effect :=
  if truthy (field claim "redirect")
  then [SetLocation (field claim "redirect")]
  else if truthy (field claim "state")
       then match self with
            | SelfRouter => [StateGo (field claim "state")]
            | _ => []
            end
       else [].
Definition has_fallback (claim : value) : bool :=
  truthy (field claim "redirect") || truthy (field claim "state").

(** ** Sample data *)

(** The token and the states of the scenarios of the specification.  Their
    claims compare strings with strings, where [==] and [===] agree: the
    examples run the guard with [strict_eq] as its [==]. *)
Definition requirement (ty v : string) (more : props) : value :=
  VObj (("type", VStr ty) :: ("value", VStr v) :: more).
Definition role_admin : value := requirement "role" "admin" [].
Definition team_core : value := requirement "team" "core" [].
Definition admin_token : value :=
  VObj [("expires_at", VNum 100); ("claims", VArr [role_admin; team_core])].
Definition later_token : value :=
  VObj [("expires_at", VNum 200); ("claims", VArr [role_admin])].
Definition owner_or_denied : value :=
  requirement "role" "owner" [("redirect", VStr "/denied")].
Definition owner_or_home : value :=
  requirement "role" "owner" [("state", VStr "home")].
Definition owner_or_nothing : value := requirement "role" "owner" [].
Definition billing_or_upgrade : value :=
  requirement "plan" "billing" [("redirect", VStr "/upgrade")].
Definition secret_state (claims : list value) : props :=
  [("name", VStr "admin.users.list"); ("url", VStr "/secret");
   ("data", VObj [("authenticate", VBool true); ("title", VStr "Users");
                  ("claims", VArr claims)])].
Definition public_state : props :=
  [("name", VStr "home"); ("url", VStr "/");
   ("data", VObj [("claims", VNum 7)])].
Definition root_state : props := [("name", VStr ""); ("url", VStr "^")].

(** ** The root scope under [check] *)

(** [$rootScope.token] after the effects of a trace: the last value assigned
    to it, else the value it held. *)
Definition store_after (old : value) (t : list effect) : value :=
  fold_left (fun s e => match e with SetToken v => v | _ => s end) t old.

(** The effects that assign [$rootScope.token]. *)
Definition stores (e : effect) : bool :=
  match e with
  | SetToken _ => true
  | _ => false
  end.

(** The store after successive calls of [check], one accessor call each. *)
Fixpoint run_checks (gets : list (js value)) (old : value) : value :=
  match gets with
  | [] => old
  | g :: rest => run_checks rest (store_after old (trace (check g old)))
  end.

(** [token || {}], as [check] normalizes a token. *)
Definition normalized (token : value) : value := or_else token (VObj []).

Definition is_array (v : value) : bool :=
  match v with
  | VArr _ => true
  | _ => false
  end.

(** A requirement whose evaluation cannot reach [self.$state.go]: it names a
    [redirect], or names no [state]. *)
Definition avoids_router (claim : value) : bool :=
  truthy (field claim "redirect") || negb (truthy (field claim "state")).

Definition has_dot (s : string) : bool :=
  existsb (fun c => Ascii.eqb c "."%char) (list_ascii_of_string s).

(** ** The run block of [auth] (index.js 62-90) *)

(** What the run block asks of the services injected into it. *)
Inductive request : Type :=
| Post (url : string)          (* $http.post(url) *)
| Every (ms : Z).              (* $interval(refresh, ms) *)

(** The timeline of the run block: the effects of [check] and the requests,
    in the order they happen. *)
Inductive auth_event : Type :=
| Did (e : effect)
| Asked (r : request).

Definition did (l : list auth_event) : list effect :=
  flat_map (fun a => match a with Did e => [e] | Asked _ => [] end) l.
Definition asked (l : list auth_event) : list request :=
  flat_map (fun a => match a with Did _ => [] | Asked r => [r] end) l.

(** [refresh] (lines 83-85), the part that runs when it is called: the
    request is posted; [check] is left to its resolution. *)
Definition refresh : list auth_event := [Asked (Post "/auth/refresh")].

(** The body of the run block (lines 87-89):
    [check(); refresh(); $interval(refresh, 60 * 1000)].  An exception of
    [check] leaves the block before the first request. *)
Definition auth_block (getToken : js value) (old : value)
  : list auth_event * completion unit :=
  match check getToken old with
  | (t, Throw e) => (map Did t, Throw e)
  | (t, Normal _) =>
      (map Did t ++ refresh ++ [Asked (Every (60 * 1000))], Normal tt)
  end.

(** What happens after the block has returned, one turn of the event loop at
    a time: the interval fires and calls [refresh], a pending request
    resolves and calls [check] (whose call of the accessor performs
    [getToken]), or a pending request fails and nothing is called. *)
Inductive turn : Type :=
| Tick
| Resolved (getToken : js value)
| Rejected.

Definition react (old : value) (t : turn) : list auth_event :=
  match t with
  | Tick => refresh
  | Resolved g => map Did (trace (check g old))
  | Rejected => []
  end.

(** The store and the timeline after a sequence of turns. *)
Fixpoint run_turns (ts : list turn) (old : value) : value * list auth_event :=
  match ts with
  | [] => (old, [])
  | t :: rest =>
      let now := react old t in
      let (final, later) := run_turns rest (store_after old (did now)) in
      (final, now ++ later)
  end.

(** The accessor calls of the turns that resolve. *)
Definition resolutions (ts : list turn) : list (js value) :=
  flat_map (fun t => match t with Resolved g => [g] | _ => [] end) ts.
Definition ticks (ts : list turn) : nat :=
  List.length (filter (fun t => match t with Tick => true | _ => false end) ts).

(** ** The builder (index.js 13-49, 104-142, 152-218) *)

Module Builder.

(** A function of the application, known by its name: one given to [config]
    or [run], or the accessor given to [auth]. *)
Definition fn : Type := string.

(** What [configs] and [runs] hold: a function of the application, the
    function that [state] pushes, or the function that [auth] pushes. *)
Inductive callback : Type :=
| UserFn (f : fn)
| StateSetup (name opts : value)
| AuthSetup (getToken : fn).

Record AngularSetup : Type := {
  name : value;
  deps : list value;
  configs : list callback;
  runs : list callback
}.

(** [new AngularSetup(name)]; [router] is the value of
    [require('angular-ui-router')]. *)
Definition create (router name : value) : AngularSetup :=
  {| name := name; deps := [router]; configs := []; runs := [] |}.

(** [module(deps)], called with the arguments [args]: an array as first
    argument is taken alone, otherwise all the arguments are taken;
    [concat] appends the elements of the array it is given. *)
Definition module (args : list value) (self : AngularSetup) : AngularSetup :=
  let added := match args with
               | VArr l :: _ => l
               | _ => args
               end in
  {| name := name self; deps := deps self ++ added;
     configs := configs self; runs := runs self |}.

Definition config (f : fn) (self : AngularSetup) : AngularSetup :=
  {| name := name self; deps := deps self;
     configs := configs self ++ [UserFn f]; runs := runs self |}.

Definition run (f : fn) (self : AngularSetup) : AngularSetup :=
  {| name := name self; deps := deps self;
     configs := configs self; runs := runs self ++ [UserFn f] |}.

Definition state (n opts : value) (self : AngularSetup) : AngularSetup :=
  {| name := name self; deps := deps self;
     configs := configs self ++ [StateSetup n opts]; runs := runs self |}.

Definition auth (getToken : fn) (self : AngularSetup) : AngularSetup :=
  {| name := name self; deps := deps self;
     configs := configs self; runs := runs self ++ [AuthSetup getToken] |}.

(** [use(fn)]: the plugin acts on the builder, which is returned. *)
Definition use (plugin : AngularSetup -> AngularSetup) (self : AngularSetup)
  : AngularSetup := plugin self.

(** A chain of calls on the builder. *)
Inductive call : Type :=
| CallModule (args : list value)
| CallConfig (f : fn)
| CallRun (f : fn)
| CallState (n opts : value)
| CallAuth (getToken : fn).

Definition apply (self : AngularSetup) (c : call) : AngularSetup :=
  match c with
  | CallModule args => module args self
  | CallConfig f => config f self
  | CallRun f => run f self
  | CallState n opts => state n opts self
  | CallAuth g => auth g self
  end.

Definition chain (cs : list call) (self : AngularSetup) : AngularSetup :=
  fold_left apply cs self.

(** The blocks that end up registered with the angular module. *)
Inductive block : Type :=
| DefaultConfig                   (* html5Mode, debugInfoEnabled(false) *)
| StateBlock (n opts : value)     (* $stateProvider.state(n, opts) *)
| AuthBlock (getToken : fn)       (* the run block of auth *)
| DefaultRun (name : value).      (* first annotation, scheduler, handler *)

(** What [done] does, in order. *)
Inductive setup_event : Type :=
| AngularModule (name : value) (deps : list value)  (* angular.module(..) *)
| Log (fmt : string) (args : list value)            (* debug(fmt, args...) *)
| Config (b : block)                                (* module.config(b) *)
| Run (b : block)                                   (* module.run(b) *)
| Call (f : fn).                                    (* f.call(self, module) *)

Definition fmt_setting_up : string := "%s : setting up with deps %o".
Definition fmt_state_setup : string := "%s : state setup " ++ dq ++ "%s" ++ dq.

Section Done.

(** Whether a function of the application throws when [done] calls it.  What
    else it does with the module it receives is its own business; it is taken
    not to call the builder. *)
Variable throws : fn -> option exn.

(** [fn.call(self, module)] for one element of [configs] or [runs]. *)
Definition invoke (self : AngularSetup) (c : callback)
  : list setup_event * completion unit :=
  match c with
  | UserFn f =>
      match throws f with
      | Some e => ([Call f], Throw e)
      | None => ([Call f], Normal tt)
      end
  | StateSetup n opts =>
      ([Log fmt_state_setup [name self; n]; Config (StateBlock n opts)],
       Normal tt)
  | AuthSetup g => ([Run (AuthBlock g)], Normal tt)
  end.

(** [list.forEach(function(fn){ fn.call(self, module) })]. *)
Fixpoint invoke_all (self : AngularSetup) (l : list callback)
  : list setup_event * completion unit :=
  match l with
  | [] => ([], Normal tt)
  | c :: rest =>
      match invoke self c with
      | (t, Normal _) =>
          let (t', r) := invoke_all self rest in (t ++ t', r)
      | (t, Throw e) => (t, Throw e)
      end
  end.

(** Whether the call of an element of [configs] or [runs] throws. *)
Definition fails (c : callback) : bool :=
  match c with
  | UserFn f => match throws f with Some _ => true | None => false end
  | _ => false
  end.

(** [done()] (lines 198-218). *)
Definition done (self : AngularSetup) : list setup_event * completion unit :=
  let opening :=
    [AngularModule (name self) (deps self);
     Log fmt_setting_up [name self; VArr (deps self)];
     Config DefaultConfig] in
  match invoke_all self (configs self) with
  | (t1, Throw e) => (opening ++ t1, Throw e)
  | (t1, Normal _) =>
      match invoke_all self (runs self) with
      | (t2, Throw e) => (opening ++ t1 ++ t2, Throw e)
      | (t2, Normal _) =>
          (opening ++ t1 ++ t2 ++ [Run (DefaultRun (name self))], Normal tt)
      end
  end.

End Done.

(** What a call of the chain contributes to [done]: through [configs], and
    through [runs]. *)
Definition config_part (app : value) (c : call) : list setup_event :=
  match c with
  | CallConfig f => [Call f]
  | CallState n opts =>
      [Log fmt_state_setup [app; n]; Config (StateBlock n opts)]
  | _ => []
  end.
Definition run_part (c : call) : list setup_event :=
  match c with
  | CallRun f => [Call f]
  | CallAuth g => [Run (AuthBlock g)]
  | _ => []
  end.
Definition module_part (c : call) : list value :=
  match c with
  | CallModule (VArr l :: _) => l
  | CallModule args => args
  | _ => []
  end.

(** What a call of the chain pushes on [configs], and on [runs]. *)
Definition pushed_config (c : call) : list callback :=
  match c with
  | CallConfig f => [UserFn f]
  | CallState n opts => [StateSetup n opts]
  | _ => []
  end.
Definition pushed_run (c : call) : list callback :=
  match c with
  | CallRun f => [UserFn f]
  | CallAuth g => [AuthSetup g]
  | _ => []
  end.

Definition is_run (e : setup_event) : bool :=
  match e with
  | Run _ => true
  | _ => false
  end.

End Builder.

(** * Properties *)

(** ** The computation monad *)

Lemma bind_ret {A B} (a : A) (k : A -> js B) : bind (ret a) k = k a.
Proof. unfold bind, ret. destruct (k a); reflexivity. Qed.

Lemma bind_throw {A B} (e : exn) (k : A -> js B) : bind (throw e) k = throw e.
Proof. reflexivity. Qed.

Lemma bind_emit {B} (e : effect) (k : unit -> js B) :
  bind (emit e) k = (e :: trace (k tt), outcome (k tt)).
Proof. unfold bind, emit. destruct (k tt); reflexivity. Qed.

Lemma bind_normal {A B} (t : list effect) (a : A) (k : A -> js B) :
  bind (t, Normal a) k = (t ++ trace (k a), outcome (k a)).
Proof. unfold bind. destruct (k a); reflexivity. Qed.

Lemma bind_thrown {A B} (t : list effect) (e : exn) (k : A -> js B) :
  bind (t, Throw e) k = (t, Throw e).
Proof. reflexivity. Qed.

Lemma bind_assoc {A B C} (m : js A) (k : A -> js B) (h : B -> js C) :
  bind (bind m k) h = bind m (fun a => bind (k a) h).
Proof.
  destruct m as [t [a | e]]; [ | reflexivity ].
  unfold bind at 2 3. destruct (k a) as [t1 [b | e1]]; cbn.
  - destruct (h b) as [t2 r]. now rewrite app_assoc.
  - reflexivity.
Qed.

Lemma get_record (v : value) (k : string) :
  nullish v = false -> get v k = ret (field v k).
Proof. unfold get. now intros ->. Qed.

Lemma get_nullish (v : value) (k : string) :
  nullish v = true -> get v k = throw TypeError.
Proof. unfold get. now intros ->. Qed.

Lemma truthy_record (v : value) : truthy v = true -> nullish v = false.
Proof. now destruct v. Qed.

Lemma forEach_app {S} (f : S -> value -> js S) (l1 l2 : list value) (s : S) :
  forEach f (l1 ++ l2) s = bind (forEach f l1 s) (forEach f l2).
Proof.
  revert s. induction l1 as [ | x l1 IH ]; intros s; cbn [forEach app].
  - now rewrite bind_ret.
  - rewrite bind_assoc.
    destruct (f s x) as [t [a | e]]; [ | reflexivity ].
    now rewrite !bind_normal, IH.
Qed.

(** ** Matching one requirement against the token's claims *)

Section Matching.

Variable loose_eq : value -> value -> bool.

Local Abbreviation scan claim cs found :=
  (forEach (match_entry loose_eq claim) cs found).

(** Once an entry has matched, the remaining ones are skipped. *)
Lemma scan_found (claim : value) (cs : list value) :
  scan claim cs true = ret true.
Proof.
  induction cs as [ | c cs IH ]; cbn [forEach]; [ reflexivity | ].
  change (match_entry loose_eq claim true c) with (@ret bool true).
  now rewrite bind_ret.
Qed.

(** One step of the scan at an entry with properties. *)
Lemma match_entry_record (claim c : value) :
  nullish claim = false -> nullish c = false ->
  match_entry loose_eq claim false c = ret (matches loose_eq claim c).
Proof.
  intros Hclaim Hc. unfold match_entry, matches.
  rewrite !(get_record claim), !(get_record c) by assumption.
  rewrite !bind_ret.
  destruct (loose_eq (field claim "type") (field c "type")); cbn [andb].
  - now destruct (loose_eq _ _).
  - reflexivity.
Qed.

(** The scan performs no effect. *)
Lemma scan_silent (claim : value) (cs : list value) (found : bool) :
  trace (scan claim cs found) = [].
Proof.
  revert found.
  induction cs as [ | c cs IH ]; intros found; cbn [forEach]; [ reflexivity | ].
  destruct found.
  - change (match_entry loose_eq claim true c) with (@ret bool true).
    rewrite bind_ret. apply IH.
  - destruct (nullish claim) eqn:Hclaim.
    + unfold match_entry. now rewrite (get_nullish claim).
    + destruct (nullish c) eqn:Hc.
      * unfold match_entry.
        rewrite (get_record claim), bind_ret by assumption.
        now rewrite (get_nullish c).
      * rewrite match_entry_record, bind_ret by assumption. apply IH.
Qed.

(** When the scan answers [true], some entry meets the requirement. *)
Lemma scan_sound (claim : value) (cs : list value) :
  outcome (scan claim cs false) = Normal true -> holds loose_eq cs claim = true.
Proof.
  induction cs as [ | c cs IH ]; cbn [forEach holds existsb].
  - discriminate.
  - destruct (nullish claim) eqn:Hclaim.
    { unfold match_entry. rewrite (get_nullish claim) by assumption.
      discriminate. }
    destruct (nullish c) eqn:Hc.
    { unfold match_entry.
      rewrite (get_record claim), bind_ret, (get_nullish c) by assumption.
      discriminate. }
    rewrite match_entry_record, bind_ret by assumption.
    destruct (matches loose_eq claim c); [ reflexivity | ].
    exact IH.
Qed.

(** On well-formed data the scan decides [holds]. *)
Lemma scan_complete (claim : value) (cs : list value) :
  nullish claim = false -> records cs = true ->
  scan claim cs false = ret (holds loose_eq cs claim).
Proof.
  intros Hclaim.
  induction cs as [ | c cs IH ]; cbn [forEach holds existsb records forallb];
    [ reflexivity | ].
  intros [Hc Hcs]%andb_prop. apply negb_true_iff in Hc.
  rewrite match_entry_record, bind_ret by assumption.
  destruct (matches loose_eq claim c); cbn [orb].
  - apply scan_found.
  - now apply IH.
Qed.

End Matching.

(** ** Effects of a trace *)

Lemma fired_app (t1 t2 : list effect) : fired (t1 ++ t2) = fired t1 ++ fired t2.
Proof. apply filter_app. Qed.

Lemma cancels_app (t1 t2 : list effect) :
  cancels (t1 ++ t2) = cancels t1 + cancels t2.
Proof. unfold cancels. now rewrite filter_app, length_app. Qed.

Lemma quiet_fired (t : list effect) : quiet t = true -> fired t = [].
Proof.
  induction t as [ | e t IH ]; cbn; [ reflexivity | ].
  intros [He Ht]%andb_prop. destruct e; try discriminate. now apply IH.
Qed.

Lemma quiet_cancels (t : list effect) : quiet t = true -> cancels t = 0.
Proof.
  unfold cancels. induction t as [ | e t IH ]; cbn; [ reflexivity | ].
  intros [He Ht]%andb_prop. destruct e; try discriminate. now apply IH.
Qed.

Lemma or_else_record (a b : value) :
  nullish b = false -> nullish (or_else a b) = false.
Proof.
  intros Hb. unfold or_else. destruct (truthy a) eqn:Ha; [ | exact Hb ].
  now apply truthy_record.
Qed.

(** ** One requirement *)

Section Requirement.

Variable loose_eq : value -> value -> bool.
Variable self : global_self.
Variable token : value.

Local Abbreviation step := (check_claim loose_eq self token).

(** After a failure the callback returns at once. *)
Lemma loop_skip (l : list value) : forEach step l true = ret true.
Proof.
  induction l as [ | x l IH ]; cbn [forEach]; [ reflexivity | ].
  change (step true x) with (@ret bool true). now rewrite bind_ret.
Qed.

(** Whatever the data, one requirement cancels at most once and redirects
    at most once, only after cancelling, and performs neither when it leaves
    [claimFailed] unset. *)
Lemma step_bound (claim : value) :
  let m := step false claim in
  (outcome m = Normal false -> quiet (trace m) = true)
  /\ List.length (fired (trace m)) <= 1
  /\ cancels (trace m) <= 1
  /\ List.length (fired (trace m)) <= cancels (trace m).
Proof.
  assert (Hthrow : forall (t : list effect) (e : exn) (m : js bool),
             m = (t, Throw e) -> quiet t = true ->
             (outcome m = Normal false -> quiet (trace m) = true)
             /\ List.length (fired (trace m)) <= 1
             /\ cancels (trace m) <= 1
             /\ List.length (fired (trace m)) <= cancels (trace m)).
  { intros t e m -> Hq. cbn [trace outcome fst snd].
    rewrite (quiet_fired t), (quiet_cancels t) by assumption.
    cbn. repeat split; (discriminate || lia). }
  cbv zeta. unfold check_claim.
  destruct (nullish token) eqn:Htoken.
  { rewrite get_nullish by assumption. now apply (Hthrow [] TypeError). }
  rewrite get_record, bind_ret by assumption.
  destruct (field token "claims") as [ | | | | | | cs ];
    try now apply (Hthrow [] TypeError).
  cbn [value_forEach].
  pose proof (scan_silent loose_eq claim cs false) as Hsilent.
  destruct (forEach (match_entry loose_eq claim) cs false) as [t [found | e]];
    cbn in Hsilent; subst t; [ | now apply (Hthrow [] e) ].
  rewrite (bind_ret found).
  destruct (nullish claim) eqn:Hclaim.
  { destruct found; rewrite get_nullish by assumption;
      now apply (Hthrow [] TypeError). }
  rewrite !(get_record claim) by assumption.
  destruct found.
  { cbn. repeat split; lia. }
  rewrite !bind_ret.
  destruct (truthy (field claim "redirect")).
  { cbn. repeat split; (discriminate || lia). }
  destruct (truthy (field claim "state")).
  - destruct self; cbn [self_state_go];
      rewrite ?(get_record claim) by assumption; cbn;
      repeat split; (discriminate || lia).
  - now apply (Hthrow [] (Error missing_fallback)).
Qed.

Section WellFormed.

Variable cs : list value.
Hypothesis token_present : truthy token = true.
Hypothesis token_cs : token_claims token = VArr cs.
Hypothesis cs_records : records cs = true.

Variable claim : value.
Hypothesis claim_record : nullish claim = false.

Lemma step_scan :
  step false claim
  = (found <- ret (holds loose_eq cs claim) ;;
     if found
     then ct <- get claim "type" ;;
          cv <- get claim "value" ;;
          debug fmt_found [ct; cv] ;;
          ret false
     else
       r <- get claim "redirect" ;;
       if truthy r
       then emit PreventDefault ;;
            ct <- get claim "type" ;;
            cv <- get claim "value" ;;
            debug fmt_redirect [ct; cv; r] ;;
            emit (SetLocation r) ;;
            ret true
       else
         s <- get claim "state" ;;
         if truthy s
         then emit PreventDefault ;;
              ct <- get claim "type" ;;
              cv <- get claim "value" ;;
              debug fmt_state [ct; cv; s] ;;
              self_state_go self claim ;;
              ret true
         else throw (Error missing_fallback)).
Proof.
  unfold check_claim.
  rewrite (get_record token), bind_ret by now apply truthy_record.
  fold (token_claims token). rewrite token_cs. cbn [value_forEach].
  now rewrite scan_complete by assumption.
Qed.

(** A requirement the token meets is logged and nothing else happens. *)
Lemma step_met :
  holds loose_eq cs claim = true ->
  step false claim = ([found_log claim], Normal false).
Proof.
  intros Hmet. rewrite step_scan, bind_ret, Hmet.
  now rewrite !(get_record claim) by assumption.
Qed.

(** An unmet requirement with a [redirect]. *)
Lemma step_redirect :
  holds loose_eq cs claim = false ->
  truthy (field claim "redirect") = true ->
  step false claim
  = ([PreventDefault; redirect_log claim;
      SetLocation (field claim "redirect")], Normal true).
Proof.
  intros Hunmet Hr. rewrite step_scan, bind_ret, Hunmet.
  rewrite !(get_record claim) by assumption.
  rewrite bind_ret, Hr. reflexivity.
Qed.

(** An unmet requirement with a [state] and no [redirect]. *)
Lemma step_state :
  holds loose_eq cs claim = false ->
  truthy (field claim "redirect") = false ->
  truthy (field claim "state") = true ->
  step false claim
  = match self with
    | SelfRouter =>
        ([PreventDefault; state_log claim; StateGo (field claim "state")],
         Normal true)
    | SelfNoRouter => ([PreventDefault; state_log claim], Throw TypeError)
    | SelfUndeclared =>
        ([PreventDefault; state_log claim], Throw ReferenceError)
    end.
Proof.
  intros Hunmet Hr Hs. rewrite step_scan, bind_ret, Hunmet.
  rewrite !(get_record claim) by assumption.
  rewrite bind_ret, Hr, bind_ret, Hs.
  destruct self; cbn [self_state_go];
    rewrite ?(get_record claim) by assumption; reflexivity.
Qed.

(** An unmet requirement with neither. *)
Lemma step_neither :
  holds loose_eq cs claim = false ->
  truthy (field claim "redirect") = false ->
  truthy (field claim "state") = false ->
  step false claim = ([], Throw (Error missing_fallback)).
Proof.
  intros Hunmet Hr Hs. rewrite step_scan, bind_ret, Hunmet.
  rewrite !(get_record claim) by assumption.
  rewrite bind_ret, Hr, bind_ret, Hs. reflexivity.
Qed.

End WellFormed.

End Requirement.

(** ** The loop over the requirements *)

Section Loop.

Variable loose_eq : value -> value -> bool.
Variable self : global_self.
Variable token : value.

Local Abbreviation step := (check_claim loose_eq self token).

(** A requirement that no entry of the token's claims meets sets
    [claimFailed] or throws. *)
Lemma step_unmet (cs : list value) (claim : value) :
  token_claims token = VArr cs -> holds loose_eq cs claim = false ->
  outcome (step false claim) <> Normal false.
Proof.
  intros Hcs Hunmet. unfold check_claim.
  destruct (nullish token) eqn:Htoken.
  { now rewrite get_nullish by assumption. }
  rewrite get_record, bind_ret by assumption.
  fold (token_claims token). rewrite Hcs. cbn [value_forEach].
  pose proof (scan_silent loose_eq claim cs false) as Hsilent.
  pose proof (scan_sound loose_eq claim cs) as Hsound.
  destruct (forEach (match_entry loose_eq claim) cs false) as [t [found | e]];
    cbn in Hsilent; subst t; [ | discriminate ].
  destruct found.
  { specialize (Hsound eq_refl). congruence. }
  clear Hsound. rewrite (bind_ret false).
  destruct (nullish claim) eqn:Hclaim.
  { now rewrite get_nullish by assumption. }
  rewrite !(get_record claim), !bind_ret by assumption.
  destruct (truthy (field claim "redirect")); [ cbn; discriminate | ].
  destruct (truthy (field claim "state")); [ | discriminate ].
  destruct self; cbn [self_state_go];
    rewrite ?(get_record claim) by assumption; cbn; discriminate.
Qed.

(** The requirements after one that failed do not change the evaluation. *)
Lemma loop_stops (pre rest : list value) (r : value) :
  outcome (step false r) <> Normal false ->
  forEach step (pre ++ r :: rest) false = forEach step (pre ++ [r]) false.
Proof.
  intros Hr. rewrite !forEach_app.
  destruct (forEach step pre false) as [t [b | e]]; [ | reflexivity ].
  rewrite !bind_normal. destruct b.
  - now rewrite !loop_skip.
  - cbn [forEach]. destruct (step false r) as [t' [b' | e']]; [ | reflexivity ].
    destruct b'; [ | now elim Hr ].
    now rewrite !bind_normal, loop_skip.
Qed.

(** The whole loop cancels at most once and redirects at most once, after
    cancelling. *)
Lemma loop_bound (l : list value) (b : bool) :
  let t := trace (forEach step l b) in
  List.length (fired t) <= 1 /\ cancels t <= 1
  /\ List.length (fired t) <= cancels t.
Proof.
  cbv zeta. revert b. induction l as [ | x l IH ]; intros b.
  { cbn. lia. }
  destruct b.
  { rewrite loop_skip. cbn. lia. }
  cbn [forEach].
  destruct (step_bound loose_eq self token x) as (Hq & Hf & Hc & Hfc).
  destruct (step false x) as [t [b' | e]]; cbn [trace outcome fst snd] in *.
  - rewrite bind_normal. cbn [trace fst].
    rewrite fired_app, cancels_app, length_app.
    destruct b'.
    + rewrite loop_skip. cbn. lia.
    + specialize (Hq eq_refl).
      rewrite (quiet_fired t), (quiet_cancels t) by assumption.
      apply (IH false).
  - rewrite bind_thrown. cbn [trace fst]. auto.
Qed.

Section WellFormed.

Variable cs : list value.
Hypothesis token_present : truthy token = true.
Hypothesis token_cs : token_claims token = VArr cs.
Hypothesis cs_records : records cs = true.

(** Requirements that the token meets are logged one after the other. *)
Lemma loop_met (pre : list value) :
  records pre = true -> forallb (holds loose_eq cs) pre = true ->
  forEach step pre false = (map found_log pre, Normal false).
Proof.
  induction pre as [ | q pre IH ]; cbn [records forallb forEach map];
    [ reflexivity | ].
  intros [Hq Hpre]%andb_prop [Hmet Hmets]%andb_prop.
  apply negb_true_iff in Hq.
  rewrite (step_met loose_eq self token cs) by assumption.
  rewrite bind_normal. fold (records pre) in Hpre.
  now rewrite IH.
Qed.

(** The loop up to and including the first requirement that is not
    met. *)
Lemma loop_first_unmet (pre rest : list value) (r : value) :
  records pre = true -> forallb (holds loose_eq cs) pre = true ->
  holds loose_eq cs r = false ->
  forEach step (pre ++ r :: rest) false
  = (map found_log pre ++ trace (step false r), outcome (step false r)).
Proof.
  intros Hpre Hmet Hunmet.
  rewrite loop_stops by now apply (step_unmet cs).
  rewrite forEach_app, loop_met, bind_normal by assumption.
  cbn [forEach]. destruct (step false r) as [t [b | e]]; [ | reflexivity ].
  rewrite bind_normal. cbn. now rewrite app_nil_r.
Qed.

End WellFormed.

End Loop.

(** ** The guard as a whole *)

Lemma state_data_record (st : props) : nullish (state_data (VObj st)) = false.
Proof. now apply or_else_record. Qed.

(** The first two statements of [authenticateState], at a state object [st]:
    [data] and [authenticate] are read without exception. *)
Ltac enter_guard st :=
  unfold authenticateState;
  rewrite (get_record (VObj st)), bind_ret by reflexivity;
  fold (state_data (VObj st));
  rewrite (get_record (state_data (VObj st))), bind_ret
    by apply state_data_record;
  fold (requires_auth (VObj st)).

Section GuardFacts.

Variable loose_eq : value -> value -> bool.
Variable self : global_self.
Variable token : value.
Variable st : props.

Local Abbreviation guard := (authenticateState loose_eq self token (VObj st)).

(** The guard of a state that does not ask for authentication. *)
Lemma guard_unauth :
  requires_auth (VObj st) = false ->
  guard = ([Debug fmt_unauth [field (VObj st) "name"]], Normal tt).
Proof. intros Hauth. enter_guard st. now rewrite Hauth. Qed.

(** The guard of a protected state without a token. *)
Lemma guard_login :
  requires_auth (VObj st) = true -> truthy token = false ->
  guard
  = ([PreventDefault; Debug fmt_login [field (VObj st) "name"];
      SetLocation (concat_str "/login?redirect=" (field (VObj st) "url"))],
     Normal tt).
Proof. intros Hauth Htoken. enter_guard st. now rewrite Hauth, Htoken. Qed.

(** The guard of a protected state with a token is the loop over the
    requirements followed by the final log entry. *)
Lemma guard_claims :
  requires_auth (VObj st) = true -> truthy token = true ->
  guard
  = (value_forEach (required_claims (VObj st))
                   (check_claim loose_eq self token) false ;;
     emit (nav_log (VObj st))).
Proof.
  intros Hauth Htoken. enter_guard st. rewrite Hauth, Htoken. cbn [negb].
  rewrite (get_record (state_data (VObj st))), bind_ret
    by apply state_data_record.
  reflexivity.
Qed.

End GuardFacts.

(** ** Logs are not redirects *)

Lemma found_logs_quiet (l : list value) (t : list effect) :
  quiet t = true -> quiet (map found_log l ++ t) = true.
Proof. intros Ht. induction l as [ | x l IH ]; cbn; assumption. Qed.

Lemma fired_found_logs (l : list value) (t : list effect) :
  fired (map found_log l ++ t) = fired t.
Proof.
  rewrite fired_app, (quiet_fired (map found_log l)); [ reflexivity | ].
  rewrite <- (app_nil_r (map found_log l)). now apply found_logs_quiet.
Qed.

Lemma cancels_found_logs (l : list value) (t : list effect) :
  cancels (map found_log l ++ t) = cancels t.
Proof.
  rewrite cancels_app, (quiet_cancels (map found_log l)); [ reflexivity | ].
  rewrite <- (app_nil_r (map found_log l)). now apply found_logs_quiet.
Qed.

(** ** Membership in the claim collection does not depend on its order *)

Lemma holds_In (loose_eq : value -> value -> bool) (cs : list value)
      (claim : value) :
  holds loose_eq cs claim = true
  <-> exists c, In c cs /\ matches loose_eq claim c = true.
Proof. apply existsb_exists. Qed.

Lemma holds_permutation (loose_eq : value -> value -> bool)
      (cs cs' : list value) (claim : value) :
  Permutation cs cs' ->
  holds loose_eq cs claim = true -> holds loose_eq cs' claim = true.
Proof.
  intros Hperm (c & Hin & Hm)%holds_In. apply holds_In.
  exists c. split; [ | exact Hm ]. now apply (Permutation_in c Hperm).
Qed.

Lemma records_permutation (cs cs' : list value) :
  Permutation cs cs' -> records cs = true -> records cs' = true.
Proof.
  intros Hperm Hcs. unfold records in *. rewrite forallb_forall in *.
  intros c Hin. apply Hcs. now apply (Permutation_in c (Permutation_sym Hperm)).
Qed.

(** ** The guard at the first requirement that is not met *)

Section FirstUnmet.

Variable loose_eq : value -> value -> bool.
Variable self : global_self.
Variable token : value.
Variable st : props.
Variables (cs pre rest : list value) (r : value).

Hypothesis state_protected : requires_auth (VObj st) = true.
Hypothesis token_present : truthy token = true.
Hypothesis token_cs : token_claims token = VArr cs.
Hypothesis cs_records : records cs = true.
Hypothesis state_claims : required_claims (VObj st) = VArr (pre ++ r :: rest).
Hypothesis pre_records : records pre = true.
Hypothesis pre_met : forallb (holds loose_eq cs) pre = true.
Hypothesis r_record : nullish r = false.
Hypothesis r_unmet : holds loose_eq cs r = false.

Local Abbreviation guard := (authenticateState loose_eq self token (VObj st)).

Lemma guard_first_unmet :
  guard
  = ((map found_log pre ++ trace (check_claim loose_eq self token false r),
      outcome (check_claim loose_eq self token false r)) ;;
     emit (nav_log (VObj st))).
Proof.
  rewrite guard_claims, state_claims by assumption. cbn [value_forEach].
  now rewrite (loop_first_unmet loose_eq self token cs) by assumption.
Qed.

Lemma guard_unmet_redirect :
  truthy (field r "redirect") = true ->
  guard
  = (map found_log pre
       ++ [PreventDefault; redirect_log r; SetLocation (field r "redirect");
           nav_log (VObj st)], Normal tt).
Proof.
  intros Hr.
  rewrite guard_first_unmet, (step_redirect loose_eq self token cs)
    by assumption.
  cbn [trace outcome fst snd]. rewrite bind_normal. cbn.
  now rewrite <- app_assoc.
Qed.

Lemma guard_unmet_state :
  truthy (field r "redirect") = false ->
  truthy (field r "state") = true ->
  guard
  = match self with
    | SelfRouter =>
        (map found_log pre
           ++ [PreventDefault; state_log r; StateGo (field r "state");
               nav_log (VObj st)], Normal tt)
    | SelfNoRouter =>
        (map found_log pre ++ [PreventDefault; state_log r], Throw TypeError)
    | SelfUndeclared =>
        (map found_log pre ++ [PreventDefault; state_log r],
         Throw ReferenceError)
    end.
Proof.
  intros Hr Hs.
  rewrite guard_first_unmet, (step_state loose_eq self token cs)
    by assumption.
  destruct self; cbn [trace outcome fst snd];
    rewrite ?bind_normal, ?bind_thrown; cbn; try reflexivity.
  now rewrite <- app_assoc.
Qed.

Lemma guard_unmet_neither :
  truthy (field r "redirect") = false ->
  truthy (field r "state") = false ->
  guard = (map found_log pre, Throw (Error missing_fallback)).
Proof.
  intros Hr Hs.
  rewrite guard_first_unmet, (step_neither loose_eq self token cs)
    by assumption.
  cbn [trace outcome fst snd]. now rewrite app_nil_r.
Qed.

End FirstUnmet.

(** ** The handler of the navigation event *)

(** The annotator runs first: whatever the guard decides afterwards, the
    effects of [onStateChange] open the trace of the handler. *)
Lemma handler_annotates_first
      (loose_eq : value -> value -> bool) (global : global_self)
      (name token toState : value) :
  exists t : list effect,
    trace (on_stateChangeStart loose_eq global name token toState)
    = trace (onStateChange name toState) ++ t.
Proof.
  unfold on_stateChangeStart.
  destruct (onStateChange name toState) as [t0 [[] | e]].
  - rewrite bind_normal. cbn [trace fst]. now eexists.
  - exists []. cbn. now rewrite app_nil_r.
Qed.

(** ** The scenarios of the specification *)

Example scenario_allowed :
  authenticateState strict_eq SelfNoRouter admin_token
                    (VObj (secret_state [role_admin]))
  = ([found_log role_admin; nav_log (VObj (secret_state [role_admin]))],
     Normal tt).
Proof. reflexivity. Qed.

Example scenario_denied :
  authenticateState strict_eq SelfNoRouter admin_token
                    (VObj (secret_state [owner_or_denied]))
  = ([PreventDefault; redirect_log owner_or_denied;
      SetLocation (VStr "/denied");
      nav_log (VObj (secret_state [owner_or_denied]))], Normal tt).
Proof. reflexivity. Qed.

Example scenario_login :
  authenticateState strict_eq SelfNoRouter VUndef (VObj (secret_state []))
  = ([PreventDefault; Debug fmt_login [VStr "admin.users.list"];
      SetLocation (VStr "/login?redirect=/secret")], Normal tt).
Proof. reflexivity. Qed.

(** * The claims of the specification *)

(** ** States that do not ask for authentication *)

(** C4.  When the [authenticate] flag of the target state is falsy (the
    [data] record may be absent), the guard only writes one line to the log
    and returns: the event is not cancelled, nothing redirects, and the
    outcome is the same whatever the token, the binding of [self] and the
    [claims] field are, so the requirements are never looked at. *)
Theorem unauthenticated_navigation_untouched
        (loose_eq : value -> value -> bool) (self : global_self)
        (token : value) (st : props) :
  requires_auth (VObj st) = false ->
  let m := authenticateState loose_eq self token (VObj st) in
  m = ([Debug fmt_unauth [field (VObj st) "name"]], Normal tt)
  /\ cancels (trace m) = 0
  /\ fired (trace m) = [].
Proof.
  intros Hauth m. subst m. rewrite guard_unauth by assumption.
  repeat split.
Qed.

Lemma unauthenticated_navigation_untouched_witness :
  requires_auth (VObj public_state) = false
  /\ authenticateState strict_eq SelfNoRouter admin_token (VObj public_state)
     = ([Debug fmt_unauth [VStr "home"]], Normal tt).
Proof.
  split; [ reflexivity | ].
  exact (proj1 (unauthenticated_navigation_untouched
                  strict_eq SelfNoRouter admin_token public_state eq_refl)).
Defined.

(** ** Protected states without a token *)

(** C3.  When the target state asks for authentication and there is no token,
    the event is cancelled once and the browser location is set to
    ["/login?redirect="] followed by the [url] field of the state (converted
    to a string by [+]); when that field is a string [u] the location is
    ["/login?redirect=" ++ u]. *)
Theorem login_redirect
        (loose_eq : value -> value -> bool) (self : global_self)
        (token : value) (st : props) :
  requires_auth (VObj st) = true -> truthy token = false ->
  let m := authenticateState loose_eq self token (VObj st) in
  m = ([PreventDefault; Debug fmt_login [field (VObj st) "name"];
        SetLocation
          (VStr ("/login?redirect=" ++ to_string (field (VObj st) "url")))],
       Normal tt)
  /\ cancels (trace m) = 1
  /\ (forall u : string,
         field (VObj st) "url" = VStr u ->
         fired (trace m) = [SetLocation (VStr ("/login?redirect=" ++ u))]).
Proof.
  intros Hauth Htoken m. subst m. rewrite guard_login by assumption.
  repeat split. intros u Hu. cbn [trace fst]. unfold concat_str.
  now rewrite Hu.
Qed.

Lemma login_redirect_witness :
  requires_auth (VObj (secret_state [])) = true
  /\ truthy VUndef = false
  /\ fired (trace (authenticateState strict_eq SelfNoRouter VUndef
                                     (VObj (secret_state []))))
     = [SetLocation (VStr "/login?redirect=/secret")].
Proof.
  split; [ reflexivity | split; [ reflexivity | ] ].
  exact (proj2 (proj2 (login_redirect strict_eq SelfNoRouter VUndef
                                      (secret_state []) eq_refl eq_refl))
               "/secret" eq_refl).
Defined.

(** ** Protected states with a token *)

(** C8.  When the target state asks for authentication, the token is present
    and every requirement of the state is met by an entry of the token's claim
    collection ([type] and [value] loosely equal), in whatever order the
    collection lists its entries, the guard only writes to the log, one line
    per requirement and a final one: the event is not cancelled, the location
    is not assigned and the router is not called. *)
Theorem satisfied_claims_pass
        (loose_eq : value -> value -> bool) (self : global_self)
        (token : value) (st : props) (cs cs' reqs : list value) :
  requires_auth (VObj st) = true -> truthy token = true ->
  token_claims token = VArr cs' -> Permutation cs cs' ->
  records cs = true ->
  required_claims (VObj st) = VArr reqs -> records reqs = true ->
  forallb (holds loose_eq cs) reqs = true ->
  let m := authenticateState loose_eq self token (VObj st) in
  m = (map found_log reqs ++ [nav_log (VObj st)], Normal tt)
  /\ cancels (trace m) = 0
  /\ fired (trace m) = [].
Proof.
  intros Hauth Htoken Hcs Hperm Hrec Hreqs Hrecs Hmet m. subst m.
  assert (Hmet' : forallb (holds loose_eq cs') reqs = true).
  { rewrite forallb_forall in *. intros q Hq.
    apply (holds_permutation loose_eq cs cs' q Hperm). now apply Hmet. }
  rewrite guard_claims, Hreqs by assumption. cbn [value_forEach].
  rewrite (loop_met loose_eq self token cs')
    by (assumption || now apply (records_permutation cs cs')).
  rewrite bind_normal. cbn [trace outcome emit fst snd].
  split; [ reflexivity | ]. cbn [trace fst].
  now rewrite cancels_found_logs, fired_found_logs.
Qed.

Lemma satisfied_claims_pass_witness :
  requires_auth (VObj (secret_state [team_core; role_admin])) = true
  /\ truthy admin_token = true
  /\ token_claims admin_token = VArr [role_admin; team_core]
  /\ Permutation [team_core; role_admin] [role_admin; team_core]
  /\ records [team_core; role_admin] = true
  /\ required_claims (VObj (secret_state [team_core; role_admin]))
     = VArr [team_core; role_admin]
  /\ forallb (holds strict_eq [team_core; role_admin]) [team_core; role_admin]
     = true
  /\ authenticateState strict_eq SelfNoRouter admin_token
                       (VObj (secret_state [team_core; role_admin]))
     = ([found_log team_core; found_log role_admin;
         nav_log (VObj (secret_state [team_core; role_admin]))], Normal tt).
Proof.
  repeat (split; [ reflexivity || apply perm_swap | ]).
  exact (proj1 (satisfied_claims_pass
                  strict_eq SelfNoRouter admin_token
                  (secret_state [team_core; role_admin])
                  [team_core; role_admin] [role_admin; team_core]
                  [team_core; role_admin]
                  eq_refl eq_refl eq_refl
                  (perm_swap role_admin team_core [])
                  eq_refl eq_refl eq_refl eq_refl)).
Defined.

(** C5.  When the first requirement that the token does not meet has neither
    a truthy [redirect] nor a truthy [state], the guard throws the error
    [missing_fallback] at that requirement: the exception leaves the loop and
    the guard, after the log lines of the requirements met before it; the
    event is not cancelled and no later requirement is looked at. *)
Theorem missing_fallback_raises
        (loose_eq : value -> value -> bool) (self : global_self)
        (token : value) (st : props) (cs pre rest : list value) (r : value) :
  requires_auth (VObj st) = true -> truthy token = true ->
  token_claims token = VArr cs -> records cs = true ->
  required_claims (VObj st) = VArr (pre ++ r :: rest) ->
  records pre = true -> forallb (holds loose_eq cs) pre = true ->
  nullish r = false -> holds loose_eq cs r = false ->
  truthy (field r "redirect") = false -> truthy (field r "state") = false ->
  let m := authenticateState loose_eq self token (VObj st) in
  m = (map found_log pre, Throw (Error missing_fallback))
  /\ cancels (trace m) = 0
  /\ fired (trace m) = [].
Proof.
  intros Hauth Htoken Hcs Hrec Hreqs Hpre Hmet Hr Hunmet Hred Hstate m.
  subst m.
  rewrite (guard_unmet_neither loose_eq self token st cs pre rest r)
    by assumption.
  cbn [trace fst]. rewrite <- (app_nil_r (map found_log pre)).
  now rewrite cancels_found_logs, fired_found_logs.
Qed.

Lemma missing_fallback_raises_witness :
  requires_auth
    (VObj (secret_state [role_admin; owner_or_nothing; billing_or_upgrade]))
  = true
  /\ truthy admin_token = true
  /\ holds strict_eq [role_admin; team_core] role_admin = true
  /\ holds strict_eq [role_admin; team_core] owner_or_nothing = false
  /\ truthy (field owner_or_nothing "redirect") = false
  /\ truthy (field owner_or_nothing "state") = false
  /\ authenticateState
       strict_eq SelfRouter admin_token
       (VObj (secret_state [role_admin; owner_or_nothing; billing_or_upgrade]))
     = ([found_log role_admin], Throw (Error missing_fallback)).
Proof.
  repeat (split; [ reflexivity | ]).
  exact (proj1 (missing_fallback_raises
                  strict_eq SelfRouter admin_token
                  (secret_state
                     [role_admin; owner_or_nothing; billing_or_upgrade])
                  [role_admin; team_core] [role_admin] [billing_or_upgrade]
                  owner_or_nothing
                  eq_refl eq_refl eq_refl eq_refl eq_refl eq_refl eq_refl
                  eq_refl eq_refl eq_refl eq_refl)).
Defined.

(** C2.  When the target state asks for authentication and the token is
    present, an evaluation of the guard cancels the event at most once and
    fires at most one redirect (an assignment to the location or a call of the
    router), and none without cancelling.  The first requirement that is not
    met decides the whole evaluation: after the log lines of the requirements
    met before it, the guard does what that requirement's fallback asks
    (assign its [redirect]; else call the router with its [state]; else throw)
    and nothing more, so the redirect that fires is its fallback and no
    other, and the event is cancelled exactly when it names a fallback.  The
    requirements declared after it are neither matched nor logged and
    trigger nothing: the evaluation is the same, effect for effect and in its
    completion, whatever follows the first unmet requirement in the list. *)
Theorem first_unmet_requirement_wins
        (loose_eq : value -> value -> bool) (self : global_self)
        (token : value) (st : props) :
  requires_auth (VObj st) = true -> truthy token = true ->
  let t := trace (authenticateState loose_eq self token (VObj st)) in
  (List.length (fired t) <= 1 /\ cancels t <= 1
   /\ List.length (fired t) <= cancels t)
  /\ (forall (cs pre rest : list value) (r : value),
         token_claims token = VArr cs -> records cs = true ->
         required_claims (VObj st) = VArr (pre ++ r :: rest) ->
         records pre = true -> forallb (holds loose_eq cs) pre = true ->
         nullish r = false -> holds loose_eq cs r = false ->
         fired t = fallback self r
         /\ cancels t = (if has_fallback r then 1 else 0)
         /\ authenticateState loose_eq self token (VObj st)
            = (if truthy (field r "redirect")
               then (map found_log pre
                       ++ [PreventDefault; redirect_log r;
                           SetLocation (field r "redirect");
                           nav_log (VObj st)], Normal tt)
               else if truthy (field r "state")
               then match self with
                    | SelfRouter =>
                        (map found_log pre
                           ++ [PreventDefault; state_log r;
                               StateGo (field r "state"); nav_log (VObj st)],
                         Normal tt)
                    | SelfNoRouter =>
                        (map found_log pre ++ [PreventDefault; state_log r],
                         Throw TypeError)
                    | SelfUndeclared =>
                        (map found_log pre ++ [PreventDefault; state_log r],
                         Throw ReferenceError)
                    end
               else (map found_log pre, Throw (Error missing_fallback)))
         /\ (forall (st' : props) (rest' : list value),
                requires_auth (VObj st') = true ->
                field (VObj st') "name" = field (VObj st) "name" ->
                required_claims (VObj st') = VArr (pre ++ r :: rest') ->
                authenticateState loose_eq self token (VObj st')
                = authenticateState loose_eq self token (VObj st))).
Proof.
  intros Hauth Htoken t. split.
  - subst t. rewrite guard_claims by assumption.
    destruct (required_claims (VObj st)) as [ | | | | | | l ];
      try (cbn; lia).
    cbn [value_forEach].
    pose proof (loop_bound loose_eq self token l false) as Hbound.
    cbv zeta in Hbound.
    destruct (forEach (check_claim loose_eq self token) l false)
      as [t [b | e]]; cbn [trace fst] in Hbound.
    + rewrite bind_normal. cbn [trace fst emit].
      rewrite fired_app, cancels_app, length_app. cbn. lia.
    + rewrite bind_thrown. exact Hbound.
  - intros cs pre rest r Hcs Hrec Hreqs Hpre Hmet Hr Hunmet.
    assert (Hlater : forall (st' : props) (rest' : list value),
               requires_auth (VObj st') = true ->
               field (VObj st') "name" = field (VObj st) "name" ->
               required_claims (VObj st') = VArr (pre ++ r :: rest') ->
               authenticateState loose_eq self token (VObj st')
               = authenticateState loose_eq self token (VObj st)).
    { intros st' rest' Hauth' Hname Hreqs'.
      rewrite (guard_first_unmet loose_eq self token st' cs pre rest' r)
        by assumption.
      rewrite (guard_first_unmet loose_eq self token st cs pre rest r)
        by assumption.
      unfold nav_log. now rewrite Hname. }
    assert (Hexact :
              authenticateState loose_eq self token (VObj st)
              = (if truthy (field r "redirect")
                 then (map found_log pre
                         ++ [PreventDefault; redirect_log r;
                             SetLocation (field r "redirect");
                             nav_log (VObj st)], Normal tt)
                 else if truthy (field r "state")
                 then match self with
                      | SelfRouter =>
                          (map found_log pre
                             ++ [PreventDefault; state_log r;
                                 StateGo (field r "state"); nav_log (VObj st)],
                           Normal tt)
                      | SelfNoRouter =>
                          (map found_log pre ++ [PreventDefault; state_log r],
                           Throw TypeError)
                      | SelfUndeclared =>
                          (map found_log pre ++ [PreventDefault; state_log r],
                           Throw ReferenceError)
                      end
                 else (map found_log pre, Throw (Error missing_fallback)))).
    { destruct (truthy (field r "redirect")) eqn:Hred.
      { now apply (guard_unmet_redirect loose_eq self token st cs pre rest r). }
      destruct (truthy (field r "state")) eqn:Hstate.
      { now apply (guard_unmet_state loose_eq self token st cs pre rest r). }
      now apply (guard_unmet_neither loose_eq self token st cs pre rest r). }
    assert (Hquiet : fired (map found_log pre) = []
                     /\ cancels (map found_log pre) = 0).
    { rewrite <- (app_nil_r (map found_log pre)).
      now rewrite fired_found_logs, cancels_found_logs. }
    destruct Hquiet as [Hfired Hcancels].
    refine (conj _ (conj _ (conj Hexact Hlater)));
      unfold fallback, has_fallback; subst t; rewrite Hexact;
      destruct (truthy (field r "redirect")); cbn [orb];
      try (destruct (truthy (field r "state")));
      try (destruct self); cbn [trace fst];
      now rewrite ?fired_found_logs, ?cancels_found_logs, ?Hfired, ?Hcancels.
Qed.

Lemma first_unmet_requirement_wins_witness :
  requires_auth
    (VObj (secret_state [role_admin; owner_or_denied; billing_or_upgrade]))
  = true
  /\ truthy admin_token = true
  /\ holds strict_eq [role_admin; team_core] role_admin = true
  /\ holds strict_eq [role_admin; team_core] owner_or_denied = false
  /\ fired (trace (authenticateState
                     strict_eq SelfRouter admin_token
                     (VObj (secret_state
                              [role_admin; owner_or_denied;
                               billing_or_upgrade]))))
     = [SetLocation (VStr "/denied")]
  /\ authenticateState
       strict_eq SelfRouter admin_token
       (VObj (secret_state [role_admin; owner_or_denied; owner_or_nothing;
                            role_admin]))
     = authenticateState
         strict_eq SelfRouter admin_token
         (VObj (secret_state
                  [role_admin; owner_or_denied; billing_or_upgrade])).
Proof.
  do 4 (split; [ reflexivity | ]).
  pose proof (proj2 (first_unmet_requirement_wins
                       strict_eq SelfRouter admin_token
                       (secret_state
                          [role_admin; owner_or_denied; billing_or_upgrade])
                       eq_refl eq_refl)
                    [role_admin; team_core] [role_admin]
                    [billing_or_upgrade] owner_or_denied
                    eq_refl eq_refl eq_refl eq_refl eq_refl eq_refl eq_refl)
    as (Hfired & _ & _ & Hlater).
  split; [ exact Hfired | ].
  exact (Hlater (secret_state [role_admin; owner_or_denied; owner_or_nothing;
                               role_admin])
                [owner_or_nothing; role_admin] eq_refl eq_refl eq_refl).
Defined.

(** C1, as the code has it.  Once a requirement is found failing, the
    requirements declared after it are skipped: [forEach] still calls the
    callback for each of them, but it returns at once, so none of them is
    matched, redirects, calls the router or throws.  The evaluation is the one
    of the state whose requirement list ends at the failing requirement. *)
Theorem later_requirements_skipped
        (loose_eq : value -> value -> bool) (self : global_self)
        (token : value) (st st' : props) (cs pre rest : list value)
        (r : value) :
  requires_auth (VObj st) = true -> requires_auth (VObj st') = true ->
  truthy token = true ->
  field (VObj st') "name" = field (VObj st) "name" ->
  token_claims token = VArr cs -> holds loose_eq cs r = false ->
  required_claims (VObj st) = VArr (pre ++ [r]) ->
  required_claims (VObj st') = VArr (pre ++ r :: rest) ->
  authenticateState loose_eq self token (VObj st')
  = authenticateState loose_eq self token (VObj st).
Proof.
  intros Hauth Hauth' Htoken Hname Hcs Hunmet Hreqs Hreqs'.
  rewrite !guard_claims, Hreqs, Hreqs' by assumption. cbn [value_forEach].
  rewrite loop_stops by now apply (step_unmet loose_eq self token cs).
  unfold nav_log. now rewrite Hname.
Qed.

Lemma later_requirements_skipped_witness :
  requires_auth (VObj (secret_state [role_admin; owner_or_denied])) = true
  /\ truthy admin_token = true
  /\ holds strict_eq [role_admin; team_core] owner_or_denied = false
  /\ authenticateState
       strict_eq SelfRouter admin_token
       (VObj (secret_state
                [role_admin; owner_or_denied; billing_or_upgrade;
                 owner_or_nothing]))
     = authenticateState
         strict_eq SelfRouter admin_token
         (VObj (secret_state [role_admin; owner_or_denied])).
Proof.
  repeat (split; [ reflexivity | ]).
  exact (later_requirements_skipped
           strict_eq SelfRouter admin_token
           (secret_state [role_admin; owner_or_denied])
           (secret_state
              [role_admin; owner_or_denied; billing_or_upgrade;
               owner_or_nothing])
           [role_admin; team_core] [role_admin]
           [billing_or_upgrade; owner_or_nothing] owner_or_denied
           eq_refl eq_refl eq_refl eq_refl eq_refl eq_refl eq_refl eq_refl).
Defined.

(** C1, as the specification words it, fails.  The token holds neither
    [role = owner] nor [plan = billing]; both requirements name a redirect.
    Only the first one fires: the location is never set to ["/upgrade"]. *)
Lemma second_failing_requirement_fires_nothing :
  let st := secret_state [owner_or_denied; billing_or_upgrade] in
  let m := authenticateState strict_eq SelfRouter admin_token (VObj st) in
  holds strict_eq [role_admin; team_core] owner_or_denied = false
  /\ holds strict_eq [role_admin; team_core] billing_or_upgrade = false
  /\ truthy (field billing_or_upgrade "redirect") = true
  /\ m = ([PreventDefault; redirect_log owner_or_denied;
           SetLocation (VStr "/denied"); nav_log (VObj st)], Normal tt)
  /\ ~ In (SetLocation (field billing_or_upgrade "redirect")) (trace m).
Proof.
  cbv zeta. repeat (split; [ reflexivity | ]).
  cbn. intros [H | [H | [H | [H | []]]]]; discriminate H.
Qed.

(** C6.  The [state] fallback does not reach the router.  [self] is not bound
    in [authenticateState]; in a page that publishes no global [$state] the
    call [self.$state.go] throws a TypeError, and where no global [self]
    exists a ReferenceError, in both cases after the event was cancelled and
    before any navigation. *)
Theorem state_fallback_misses_router :
  let st := secret_state [owner_or_home] in
  holds strict_eq [role_admin; team_core] owner_or_home = false
  /\ truthy (field owner_or_home "redirect") = false
  /\ truthy (field owner_or_home "state") = true
  /\ authenticateState strict_eq SelfNoRouter admin_token (VObj st)
     = ([PreventDefault; state_log owner_or_home], Throw TypeError)
  /\ authenticateState strict_eq SelfUndeclared admin_token (VObj st)
     = ([PreventDefault; state_log owner_or_home], Throw ReferenceError)
  /\ fired (trace (authenticateState strict_eq SelfNoRouter admin_token
                                     (VObj st))) = [].
Proof. cbv zeta. repeat (split; [ reflexivity | ]). reflexivity. Qed.

(** ** The token check *)

Lemma strict_eq_sym (x y : value) : strict_eq x y = strict_eq y x.
Proof.
  destruct x, y; cbn; try reflexivity.
  - now destruct b, b0.
  - apply Z.eqb_sym.
  - apply String.eqb_sym.
Qed.

Lemma falsy_field (v : value) (k : string) :
  truthy v = false -> field v k = VUndef.
Proof. now destruct v. Qed.

(** [check] when the accessor returns [cand] and the root scope holds [old]:
    the two tests of the source, on the normalized tokens. *)
Lemma check_eval (cand old : value) :
  check (ret cand) old
  = if negb (truthy cand) && negb (truthy old) then unchanged
    else if strict_eq (field (or_else cand (VObj [])) "expires_at")
                      (field (or_else old (VObj [])) "expires_at")
         then unchanged
         else stored (or_else cand (VObj [])).
Proof.
  unfold check, debug. rewrite bind_emit, bind_ret.
  destruct (negb (truthy cand) && negb (truthy old)); [ reflexivity | ].
  rewrite !get_record, !bind_ret by now apply or_else_record.
  now destruct (strict_eq _ _).
Qed.

(** An absent candidate against a stored token with an expiry marker: the
    empty record is stored. *)
Lemma check_stores_empty (cand old : value) :
  truthy cand = false -> truthy old = true -> has_expiry old = true ->
  check (ret cand) old = stored (VObj []).
Proof.
  unfold has_expiry. intros Hcand Hold Hexp. apply negb_true_iff in Hexp.
  rewrite check_eval. unfold or_else. rewrite Hcand, Hold. cbn [negb andb].
  cbn [field lookup]. now rewrite strict_eq_sym, Hexp.
Qed.

(** C7, as the specification words it, fails.  The stored token is the empty
    record that [check] itself stores for an absent candidate (it is a
    present token: an object is truthy), and the candidate is absent.  This
    is the case old present, new absent, for which the store should be
    updated; [check] leaves it alone.  The same happens for a first token
    that carries no [expires_at]. *)
Lemma check_keeps_store_counterexample :
  check (ret VNull) admin_token = stored (VObj [])
  /\ truthy (VObj []) = true
  /\ truthy VNull = false
  /\ check (ret VNull) (VObj []) = unchanged
  /\ trace (check (ret VNull) (VObj [])) = [Debug fmt_checking []]
  /\ truthy (VObj [("claims", VArr [role_admin])]) = true
  /\ check (ret (VObj [("claims", VArr [role_admin])])) VUndef = unchanged.
Proof. repeat (split; [ reflexivity | ]). reflexivity. Qed.

(** C7, as the code has it.  An absent token counts as a record without
    [expires_at].  [check] leaves the store alone when both tokens are absent
    and whenever the two [expires_at] are strictly equal: both tokens present
    with equal markers, or one absent and the other present without a marker.
    In every other case (both present with different markers, or one absent
    and the other carrying a marker) it stores the candidate, an absent
    candidate as the empty record. *)
Theorem check_change_detection (cand old : value) :
  (truthy cand = false -> truthy old = false ->
   check (ret cand) old = unchanged)
  /\ (truthy cand = true -> truthy old = true ->
      strict_eq (field cand "expires_at") (field old "expires_at") = true ->
      check (ret cand) old = unchanged)
  /\ (truthy cand = true -> truthy old = true ->
      strict_eq (field cand "expires_at") (field old "expires_at") = false ->
      check (ret cand) old = stored cand)
  /\ (truthy cand = true -> truthy old = false -> has_expiry cand = true ->
      check (ret cand) old = stored cand)
  /\ (truthy cand = false -> truthy old = true -> has_expiry old = true ->
      check (ret cand) old = stored (VObj []))
  /\ (truthy cand = true -> truthy old = false -> has_expiry cand = false ->
      check (ret cand) old = unchanged)
  /\ (truthy cand = false -> truthy old = true -> has_expiry old = false ->
      check (ret cand) old = unchanged).
Proof.
  unfold has_expiry. rewrite check_eval. unfold or_else.
  repeat split; intros Hcand Hold; rewrite Hcand, Hold; cbn [negb andb];
    try reflexivity; cbn [field lookup]; intros Hexp;
    rewrite ?negb_true_iff, ?negb_false_iff in Hexp;
    rewrite ?(strict_eq_sym VUndef), ?Hexp; reflexivity.
Qed.

Lemma check_change_detection_witness :
  (truthy later_token = true /\ truthy admin_token = true
   /\ strict_eq (field later_token "expires_at")
                (field admin_token "expires_at") = false
   /\ check (ret later_token) admin_token = stored later_token)
  /\ (truthy VNull = false /\ truthy admin_token = true
      /\ has_expiry admin_token = true
      /\ check (ret VNull) admin_token = stored (VObj []))
  /\ (truthy VNull = false /\ truthy (VObj []) = true
      /\ has_expiry (VObj []) = false
      /\ check (ret VNull) (VObj []) = unchanged).
Proof.
  split; [ | split ].
  - repeat (split; [ reflexivity | ]).
    exact (proj1 (proj2 (proj2 (check_change_detection later_token admin_token)))
                 eq_refl eq_refl eq_refl).
  - repeat (split; [ reflexivity | ]).
    exact (proj1 (proj2 (proj2 (proj2 (proj2
             (check_change_detection VNull admin_token)))))
                 eq_refl eq_refl eq_refl).
  - repeat (split; [ reflexivity | ]).
    exact (proj2 (proj2 (proj2 (proj2 (proj2 (proj2
             (check_change_detection VNull (VObj [])))))))
                 eq_refl eq_refl eq_refl).
Defined.

(** ** A token without claims *)

(** C10.  When the token is present but has no [claims] (as the empty record
    that [check] stores for an absent candidate), and the state asks for
    authentication and lists at least one requirement, the guard throws a
    TypeError at [token.claims.forEach] for the first requirement, before any
    effect: nothing is logged, cancelled or redirected, and the error is not
    the one of a missing fallback. *)
Theorem token_without_claims_raises
        (loose_eq : value -> value -> bool) (self : global_self)
        (token : value) (st : props) (r : value) (rest : list value) :
  requires_auth (VObj st) = true -> truthy token = true ->
  nullish (token_claims token) = true ->
  required_claims (VObj st) = VArr (r :: rest) ->
  authenticateState loose_eq self token (VObj st) = ([], Throw TypeError)
  /\ authenticateState loose_eq self (VObj []) (VObj st) = ([], Throw TypeError)
  /\ (forall cand old : value,
         truthy cand = false -> truthy old = true -> has_expiry old = true ->
         check (ret cand) old = stored (VObj [])).
Proof.
  intros Hauth Htoken Hclaims Hreqs.
  assert (Hraise : forall tok : value,
             truthy tok = true -> nullish (token_claims tok) = true ->
             authenticateState loose_eq self tok (VObj st)
             = ([], Throw TypeError)).
  { intros tok Htok Hnone.
    rewrite guard_claims, Hreqs by assumption. cbn [value_forEach forEach].
    unfold check_claim.
    rewrite (get_record tok), bind_ret by now apply truthy_record.
    fold (token_claims tok).
    now destruct (token_claims tok). }
  repeat split.
  - now apply Hraise.
  - now apply Hraise.
  - apply check_stores_empty.
Qed.

Lemma token_without_claims_raises_witness :
  requires_auth (VObj (secret_state [role_admin])) = true
  /\ truthy (VObj []) = true
  /\ nullish (token_claims (VObj [])) = true
  /\ authenticateState strict_eq SelfRouter (VObj [])
                       (VObj (secret_state [role_admin]))
     = ([], Throw TypeError).
Proof.
  repeat (split; [ reflexivity | ]).
  exact (proj1 (token_without_claims_raises
                  strict_eq SelfRouter (VObj []) (secret_state [role_admin])
                  role_admin [] eq_refl eq_refl eq_refl eq_refl)).
Defined.

(** ** The state annotator *)

Lemma replace_dots_length (s : string) :
  String.length (replace_dots s) = String.length s.
Proof. induction s as [ | c s IH ]; cbn; congruence. Qed.

Lemma replace_dots_get (s : string) (i : nat) :
  String.get i (replace_dots s) = option_map dash (String.get i s).
Proof.
  revert i. induction s as [ | c s IH ]; intros i; cbn; [ reflexivity | ].
  destruct i; [ reflexivity | apply IH ].
Qed.

(** C9.  For a target state whose name is a non-empty string [s],
    [onStateChange] sets the document title to [data.title] when that field
    is there (truthy), and in any case sets the state-name field to [s] with
    every dot replaced by a dash: a string of the same length that has a dash
    wherever [s] has a dot and the character of [s] elsewhere.  For a state
    whose name is empty (falsy) it does nothing. *)
Theorem state_annotation (name : value) (st : props) :
  let title := field (field (VObj st) "data") "title" in
  (forall s : string,
      field (VObj st) "name" = VStr s -> s <> ""%string ->
      onStateChange name (VObj st)
      = (Debug fmt_state_change [name; VStr s]
           :: (if truthy title then [SetTitle title] else [])
           ++ [SetStateName (VStr (replace_dots s))], Normal tt)
      /\ String.length (replace_dots s) = String.length s
      /\ forall i : nat,
          String.get i (replace_dots s) = option_map dash (String.get i s))
  /\ (truthy (field (VObj st) "name") = false ->
      onStateChange name (VObj st) = ([], Normal tt)).
Proof.
  cbv zeta. split.
  - intros s Hname Hs.
    split; [ | split; [ apply replace_dots_length | apply replace_dots_get ] ].
    unfold onStateChange.
    rewrite (get_record (VObj st)), bind_ret, Hname by reflexivity.
    assert (Htruthy : truthy (VStr s) = true).
    { cbn. now destruct (String.eqb_spec s ""). }
    rewrite Htruthy. cbn [negb]. unfold debug. rewrite bind_emit.
    rewrite (get_record (VObj st)), bind_ret by reflexivity.
    unfold or_else. rewrite Htruthy. cbn [replace_dots_value].
    destruct (truthy (field (VObj st) "data")) eqn:Hdata.
    + rewrite get_record, bind_ret by now apply truthy_record.
      now destruct (truthy (field (field (VObj st) "data") "title")).
    + now rewrite (falsy_field _ "title" Hdata).
  - intros Hname. unfold onStateChange.
    rewrite (get_record (VObj st)), bind_ret by reflexivity.
    now rewrite Hname.
Qed.

Lemma state_annotation_witness :
  field (VObj (secret_state [])) "name" = VStr "admin.users.list"
  /\ "admin.users.list"%string <> ""%string
  /\ truthy (field (VObj root_state) "name") = false
  /\ onStateChange (VStr "app") (VObj (secret_state []))
     = ([Debug fmt_state_change [VStr "app"; VStr "admin.users.list"];
         SetTitle (VStr "Users");
         SetStateName (VStr "admin-users-list")], Normal tt)
  /\ onStateChange (VStr "app") (VObj root_state) = ([], Normal tt).
Proof.
  split; [ reflexivity | split; [ discriminate | split; [ reflexivity | ] ] ].
  split.
  - exact (proj1 (proj1 (state_annotation (VStr "app") (secret_state []))
                        "admin.users.list"%string eq_refl
                        (fun H => match H with end))).
  - exact (proj2 (state_annotation (VStr "app") root_state) eq_refl).
Defined.

(** * Further properties of the code *)

(** ** The scan of the token's claims (index.js 267-272) *)

(** X1.  The scan of the token's claims for one requirement stops at the first
    entry that meets it: the entries after it are not inspected, whatever
    they are ([null] included).  An entry without properties that comes
    before any match aborts the scan with a TypeError. *)
Theorem scan_stops_at_first_match
        (loose_eq : value -> value -> bool) (claim : value)
        (before : list value) :
  nullish claim = false -> records before = true ->
  holds loose_eq before claim = false ->
  (forall (c : value) (after : list value),
      nullish c = false -> matches loose_eq claim c = true ->
      forEach (match_entry loose_eq claim) (before ++ c :: after) false
      = ret true)
  /\ (forall (bad : value) (after : list value),
         nullish bad = true ->
         forEach (match_entry loose_eq claim) (before ++ bad :: after) false
         = throw TypeError).
Proof.
  intros Hclaim Hbefore Hnone. split.
  - intros c after Hc Hmatch.
    rewrite forEach_app, scan_complete, bind_ret, Hnone by assumption.
    cbn [forEach]. rewrite match_entry_record, bind_ret, Hmatch by assumption.
    apply scan_found.
  - intros bad after Hbad.
    rewrite forEach_app, scan_complete, bind_ret, Hnone by assumption.
    cbn [forEach]. unfold match_entry.
    rewrite (get_record claim), bind_ret, (get_nullish bad) by assumption.
    reflexivity.
Qed.

Lemma scan_stops_at_first_match_witness :
  nullish role_admin = false
  /\ records [team_core] = true
  /\ holds strict_eq [team_core] role_admin = false
  /\ forEach (match_entry strict_eq role_admin)
             ([team_core] ++ role_admin :: [VNull; VUndef]) false
     = ret true
  /\ forEach (match_entry strict_eq role_admin)
             ([team_core] ++ VNull :: [role_admin]) false
     = throw TypeError.
Proof.
  do 3 (split; [ reflexivity | ]).
  split.
  - exact (proj1 (scan_stops_at_first_match
                    strict_eq role_admin [team_core] eq_refl eq_refl eq_refl)
                 role_admin [VNull; VUndef] eq_refl eq_refl).
  - exact (proj2 (scan_stops_at_first_match
                    strict_eq role_admin [team_core] eq_refl eq_refl eq_refl)
                 VNull [role_admin] eq_refl).
Defined.

(** ** The guard and the binding of [self] (index.js 263-296) *)

Lemma forEach_ext {S} (f g : S -> value -> js S) (l : list value) (s : S) :
  (forall (x : value) (s' : S), In x l -> f s' x = g s' x) ->
  forEach f l s = forEach g l s.
Proof.
  revert s. induction l as [ | x l IH ]; intros s Hfg; cbn [forEach];
    [ reflexivity | ].
  rewrite (Hfg x s) by now left.
  destruct (g s x) as [t [s' | e]]; [ | reflexivity ].
  rewrite !bind_normal, IH; [ reflexivity | ].
  intros y s'' Hy. apply Hfg. now right.
Qed.

Lemma check_claim_avoids_router
      (loose_eq : value -> value -> bool) (self self' : global_self)
      (token : value) (failed : bool) (claim : value) :
  avoids_router claim = true ->
  check_claim loose_eq self token failed claim
  = check_claim loose_eq self' token failed claim.
Proof.
  intros Havoid. unfold check_claim.
  destruct failed; [ reflexivity | ].
  destruct (get token "claims") as [t0 [tc | e0]]; [ | reflexivity ].
  rewrite !bind_normal. f_equal.
  - f_equal.
    destruct (value_forEach tc (match_entry loose_eq claim) false)
      as [t1 [found | e1]]; [ | reflexivity ].
    rewrite !bind_normal. f_equal.
    destruct found; [ reflexivity | ].
    destruct (nullish claim) eqn:Hclaim.
    { now rewrite !(get_nullish claim) by assumption. }
    rewrite !(get_record claim), !bind_ret by assumption.
    destruct (truthy (field claim "redirect")) eqn:Hred; [ reflexivity | ].
    unfold avoids_router in Havoid. rewrite Hred in Havoid. cbn in Havoid.
    apply negb_true_iff in Havoid. now rewrite Havoid.
  - destruct (value_forEach tc (match_entry loose_eq claim) false)
      as [t1 [found | e1]]; [ | reflexivity ].
    rewrite !bind_normal. f_equal.
    destruct found; [ reflexivity | ].
    destruct (nullish claim) eqn:Hclaim.
    { now rewrite !(get_nullish claim) by assumption. }
    rewrite !(get_record claim), !bind_ret by assumption.
    destruct (truthy (field claim "redirect")) eqn:Hred; [ reflexivity | ].
    unfold avoids_router in Havoid. rewrite Hred in Havoid. cbn in Havoid.
    apply negb_true_iff in Havoid. now rewrite Havoid.
Qed.

(** X2.  When no requirement of the target state can reach the router (each one
    names a [redirect] or names no [state]), the guard does the same whatever
    the free identifier [self] denotes. *)
Theorem guard_without_state_fallback_ignores_self
        (loose_eq : value -> value -> bool) (self self' : global_self)
        (token : value) (st : props) (reqs : list value) :
  required_claims (VObj st) = VArr reqs ->
  forallb avoids_router reqs = true ->
  authenticateState loose_eq self token (VObj st)
  = authenticateState loose_eq self' token (VObj st).
Proof.
  intros Hreqs Havoid.
  destruct (requires_auth (VObj st)) eqn:Hauth.
  - destruct (truthy token) eqn:Htoken.
    + rewrite !guard_claims, Hreqs by assumption. cbn [value_forEach].
      rewrite (forEach_ext (check_claim loose_eq self token)
                           (check_claim loose_eq self' token));
        [ reflexivity | ].
      intros r failed Hr. apply check_claim_avoids_router.
      rewrite forallb_forall in Havoid. now apply Havoid.
    + now rewrite !guard_login by assumption.
  - now rewrite !guard_unauth by assumption.
Qed.

Lemma guard_without_state_fallback_ignores_self_witness :
  required_claims
    (VObj (secret_state [role_admin; owner_or_denied; owner_or_nothing]))
  = VArr [role_admin; owner_or_denied; owner_or_nothing]
  /\ forallb avoids_router [role_admin; owner_or_denied; owner_or_nothing]
     = true
  /\ authenticateState
       strict_eq SelfUndeclared admin_token
       (VObj (secret_state [role_admin; owner_or_denied; owner_or_nothing]))
     = authenticateState
         strict_eq SelfRouter admin_token
         (VObj (secret_state [role_admin; owner_or_denied; owner_or_nothing])).
Proof.
  repeat (split; [ reflexivity | ]).
  exact (guard_without_state_fallback_ignores_self
           strict_eq SelfUndeclared SelfRouter admin_token
           (secret_state [role_admin; owner_or_denied; owner_or_nothing])
           [role_admin; owner_or_denied; owner_or_nothing]
           eq_refl eq_refl).
Defined.

(** ** Fallbacks of the first unmet requirement (index.js 279-293) *)

(** X3.  When the first requirement that the token does not meet names a
    [redirect], the guard cancels the event once, assigns that value to the
    location, and completes normally after writing the final log line; the
    binding of [self], a [state] the requirement may also name, and the
    requirements declared after it play no part. *)
Theorem unmet_redirect_fires
        (loose_eq : value -> value -> bool) (self : global_self)
        (token : value) (st : props) (cs pre rest : list value) (r : value) :
  requires_auth (VObj st) = true -> truthy token = true ->
  token_claims token = VArr cs -> records cs = true ->
  required_claims (VObj st) = VArr (pre ++ r :: rest) ->
  records pre = true -> forallb (holds loose_eq cs) pre = true ->
  nullish r = false -> holds loose_eq cs r = false ->
  truthy (field r "redirect") = true ->
  let m := authenticateState loose_eq self token (VObj st) in
  m = (map found_log pre
         ++ [PreventDefault; redirect_log r; SetLocation (field r "redirect");
             nav_log (VObj st)], Normal tt)
  /\ cancels (trace m) = 1
  /\ fired (trace m) = [SetLocation (field r "redirect")].
Proof.
  intros Hauth Htoken Hcs Hrec Hreqs Hpre Hmet Hr Hunmet Hred m. subst m.
  rewrite (guard_unmet_redirect loose_eq self token st cs pre rest r)
    by assumption.
  cbn [trace fst]. now rewrite cancels_found_logs, fired_found_logs.
Qed.

Lemma unmet_redirect_fires_witness :
  requires_auth
    (VObj (secret_state [role_admin; owner_or_denied; owner_or_nothing]))
  = true
  /\ truthy admin_token = true
  /\ holds strict_eq [role_admin; team_core] role_admin = true
  /\ holds strict_eq [role_admin; team_core] owner_or_denied = false
  /\ truthy (field owner_or_denied "redirect") = true
  /\ authenticateState
       strict_eq SelfUndeclared admin_token
       (VObj (secret_state [role_admin; owner_or_denied; owner_or_nothing]))
     = ([found_log role_admin; PreventDefault; redirect_log owner_or_denied;
         SetLocation (VStr "/denied");
         nav_log (VObj (secret_state
                          [role_admin; owner_or_denied; owner_or_nothing]))],
        Normal tt).
Proof.
  do 5 (split; [ reflexivity | ]).
  exact (proj1 (unmet_redirect_fires
                  strict_eq SelfUndeclared admin_token
                  (secret_state [role_admin; owner_or_denied; owner_or_nothing])
                  [role_admin; team_core] [role_admin] [owner_or_nothing]
                  owner_or_denied
                  eq_refl eq_refl eq_refl eq_refl eq_refl eq_refl eq_refl
                  eq_refl eq_refl eq_refl)).
Defined.

(** X4.  In a page that publishes the router as the global [$state] (so that
    [self.$state.go] is the router's [go]), the first unmet requirement that
    names a [state] and no [redirect] cancels the event once, asks the router
    for that state and lets the guard complete normally. *)
Theorem state_fallback_with_global_router
        (loose_eq : value -> value -> bool)
        (token : value) (st : props) (cs pre rest : list value) (r : value) :
  requires_auth (VObj st) = true -> truthy token = true ->
  token_claims token = VArr cs -> records cs = true ->
  required_claims (VObj st) = VArr (pre ++ r :: rest) ->
  records pre = true -> forallb (holds loose_eq cs) pre = true ->
  nullish r = false -> holds loose_eq cs r = false ->
  truthy (field r "redirect") = false -> truthy (field r "state") = true ->
  let m := authenticateState loose_eq SelfRouter token (VObj st) in
  m = (map found_log pre
         ++ [PreventDefault; state_log r; StateGo (field r "state");
             nav_log (VObj st)], Normal tt)
  /\ cancels (trace m) = 1
  /\ fired (trace m) = [StateGo (field r "state")].
Proof.
  intros Hauth Htoken Hcs Hrec Hreqs Hpre Hmet Hr Hunmet Hred Hstate m.
  subst m.
  rewrite (guard_unmet_state loose_eq SelfRouter token st cs pre rest r)
    by assumption.
  cbn [trace fst]. now rewrite cancels_found_logs, fired_found_logs.
Qed.

Lemma state_fallback_with_global_router_witness :
  requires_auth (VObj (secret_state [role_admin; owner_or_home])) = true
  /\ truthy admin_token = true
  /\ holds strict_eq [role_admin; team_core] owner_or_home = false
  /\ truthy (field owner_or_home "redirect") = false
  /\ truthy (field owner_or_home "state") = true
  /\ fired (trace (authenticateState
                     strict_eq SelfRouter admin_token
                     (VObj (secret_state [role_admin; owner_or_home]))))
     = [StateGo (VStr "home")].
Proof.
  do 5 (split; [ reflexivity | ]).
  exact (proj2 (proj2 (state_fallback_with_global_router
                         strict_eq admin_token
                         (secret_state [role_admin; owner_or_home])
                         [role_admin; team_core] [role_admin] []
                         owner_or_home
                         eq_refl eq_refl eq_refl eq_refl eq_refl eq_refl
                         eq_refl eq_refl eq_refl eq_refl eq_refl))).
Defined.

(** ** Edges of the requirement list (index.js 260-263) *)

(** X5.  A protected state that lists no requirement ([claims] absent, falsy or
    empty) lets every present token through: the guard writes the final log
    line and nothing else, and the token's claims are not read, so a token
    without a claim collection or with a malformed one passes too. *)
Theorem no_requirements_pass
        (loose_eq : value -> value -> bool) (self : global_self)
        (token : value) (st : props) :
  requires_auth (VObj st) = true -> truthy token = true ->
  required_claims (VObj st) = VArr [] ->
  authenticateState loose_eq self token (VObj st)
  = ([nav_log (VObj st)], Normal tt).
Proof.
  intros Hauth Htoken Hreqs. now rewrite guard_claims, Hreqs by assumption.
Qed.

Lemma no_requirements_pass_witness :
  requires_auth (VObj (secret_state [])) = true
  /\ truthy (VObj [("claims", VNum 3)]) = true
  /\ required_claims (VObj (secret_state [])) = VArr []
  /\ authenticateState strict_eq SelfNoRouter (VObj [("claims", VNum 3)])
                       (VObj (secret_state []))
     = ([nav_log (VObj (secret_state []))], Normal tt).
Proof.
  do 3 (split; [ reflexivity | ]).
  exact (no_requirements_pass strict_eq SelfNoRouter
                              (VObj [("claims", VNum 3)]) (secret_state [])
                              eq_refl eq_refl eq_refl).
Defined.

(** X6.  When the [claims] of a protected state is truthy but not an array (a
    single requirement object, a string), the guard of a present token throws
    a TypeError at [claims.forEach] before any effect: the event is not
    cancelled and nothing is logged. *)
Theorem claims_not_an_array_raises
        (loose_eq : value -> value -> bool) (self : global_self)
        (token : value) (st : props) :
  requires_auth (VObj st) = true -> truthy token = true ->
  is_array (required_claims (VObj st)) = false ->
  authenticateState loose_eq self token (VObj st) = ([], Throw TypeError).
Proof.
  intros Hauth Htoken Hreqs. rewrite guard_claims by assumption.
  now destruct (required_claims (VObj st)).
Qed.

Lemma claims_not_an_array_raises_witness :
  let st := [("name", VStr "reports"); ("url", VStr "/reports");
             ("data", VObj [("authenticate", VBool true);
                            ("claims", owner_or_denied)])] in
  requires_auth (VObj st) = true
  /\ truthy admin_token = true
  /\ is_array (required_claims (VObj st)) = false
  /\ authenticateState strict_eq SelfRouter admin_token (VObj st)
     = ([], Throw TypeError).
Proof.
  cbv zeta. do 3 (split; [ reflexivity | ]).
  exact (claims_not_an_array_raises
           strict_eq SelfRouter admin_token
           [("name", VStr "reports"); ("url", VStr "/reports");
            ("data", VObj [("authenticate", VBool true);
                           ("claims", owner_or_denied)])]
           eq_refl eq_refl eq_refl).
Defined.

(** ** More claims never lose access (index.js 263-277) *)

Lemma holds_incl (loose_eq : value -> value -> bool) (cs cs' : list value)
      (claim : value) :
  (forall c : value, In c cs -> In c cs') ->
  holds loose_eq cs claim = true -> holds loose_eq cs' claim = true.
Proof.
  intros Hincl (c & Hin & Hm)%holds_In. apply holds_In.
  exists c. split; [ now apply Hincl | exact Hm ].
Qed.

(** X7.  When a claim collection meets every requirement of a protected state, so
    does every well-formed collection that contains its entries: a token that
    carries them, in any order and among any other claims, passes with the
    same log and without cancel or redirect. *)
Theorem more_claims_keep_access
        (loose_eq : value -> value -> bool) (self : global_self)
        (token : value) (st : props) (cs cs' reqs : list value) :
  requires_auth (VObj st) = true -> truthy token = true ->
  token_claims token = VArr cs' -> records cs' = true ->
  (forall c : value, In c cs -> In c cs') ->
  required_claims (VObj st) = VArr reqs -> records reqs = true ->
  forallb (holds loose_eq cs) reqs = true ->
  authenticateState loose_eq self token (VObj st)
  = (map found_log reqs ++ [nav_log (VObj st)], Normal tt).
Proof.
  intros Hauth Htoken Hcs Hrec Hincl Hreqs Hrecs Hmet.
  assert (Hmet' : forallb (holds loose_eq cs') reqs = true).
  { rewrite forallb_forall in *. intros q Hq.
    apply (holds_incl loose_eq cs cs' q Hincl). now apply Hmet. }
  rewrite guard_claims, Hreqs by assumption. cbn [value_forEach].
  rewrite (loop_met loose_eq self token cs') by assumption.
  now rewrite bind_normal.
Qed.

Lemma more_claims_keep_access_witness :
  requires_auth (VObj (secret_state [role_admin])) = true
  /\ truthy admin_token = true
  /\ token_claims admin_token = VArr [role_admin; team_core]
  /\ records [role_admin; team_core] = true
  /\ forallb (holds strict_eq [role_admin]) [role_admin] = true
  /\ authenticateState strict_eq SelfNoRouter admin_token
                       (VObj (secret_state [role_admin]))
     = ([found_log role_admin; nav_log (VObj (secret_state [role_admin]))],
        Normal tt).
Proof.
  do 5 (split; [ reflexivity | ]).
  refine (more_claims_keep_access
            strict_eq SelfNoRouter admin_token (secret_state [role_admin])
            [role_admin] [role_admin; team_core] [role_admin]
            eq_refl eq_refl eq_refl eq_refl _ eq_refl eq_refl eq_refl).
  intros c [Hc | []]. left. exact Hc.
Defined.

(** ** The token store under [check] (index.js 64-81) *)

Lemma normalized_truthy (token : value) : truthy (normalized token) = true.
Proof.
  unfold normalized, or_else. now destruct (truthy token) eqn:Htoken.
Qed.

Lemma normalized_present (token : value) :
  truthy token = true -> normalized token = token.
Proof. unfold normalized, or_else. now intros ->. Qed.

Lemma check_outcomes (cand old : value) :
  check (ret cand) old = unchanged
  \/ check (ret cand) old = stored (normalized cand).
Proof.
  rewrite check_eval. fold (normalized cand).
  destruct (negb (truthy cand) && negb (truthy old)); [ now left | ].
  destruct (strict_eq _ _); [ now left | now right ].
Qed.

Lemma store_after_app (old : value) (t1 t2 : list effect) :
  store_after old (t1 ++ t2) = store_after (store_after old t1) t2.
Proof. apply fold_left_app. Qed.

Lemma store_after_kept (old : value) (t : list effect) :
  existsb stores t = false -> store_after old t = old.
Proof.
  revert old. induction t as [ | e t IH ]; intros old; cbn; [ reflexivity | ].
  intros [He Ht]%orb_false_elim. destruct e; try discriminate; now apply IH.
Qed.

(** X8.  [check] never throws on its own account, never cancels or redirects,
    and assigns the store at most once: its run is one of two, the log line
    alone, or the log line, the line of the change and one assignment of the
    normalized candidate.  What it stores is therefore always truthy, an
    absent candidate being stored as the empty record. *)
Theorem check_stores_present_token (cand old : value) :
  let m := check (ret cand) old in
  outcome m = Normal tt
  /\ fired (trace m) = [] /\ cancels (trace m) = 0
  /\ (forall v : value,
         In (SetToken v) (trace m) -> v = normalized cand /\ truthy v = true)
  /\ (store_after old (trace m) = old
      \/ store_after old (trace m) = normalized cand)
  /\ (m = ([Debug fmt_checking []], Normal tt)
      \/ m = ([Debug fmt_checking []; Debug fmt_changed [normalized cand];
               SetToken (normalized cand)], Normal tt))
  /\ List.length (filter stores (trace m)) <= 1.
Proof.
  cbv zeta. destruct (check_outcomes cand old) as [-> | ->].
  - split; [ reflexivity | split; [ reflexivity | split; [ reflexivity | ] ] ].
    split; [ | split; [ now left | split; [ now left | cbn; lia ] ] ].
    intros v [H | []]. discriminate H.
  - split; [ reflexivity | split; [ reflexivity | split; [ reflexivity | ] ] ].
    split; [ | split; [ now right | split; [ now right | cbn; lia ] ] ].
    intros v [H | [H | [H | []]]]; try discriminate H.
    injection H as <-. split; [ reflexivity | apply normalized_truthy ].
Qed.

Lemma check_stores_present_token_witness :
  In (SetToken (VObj [])) (trace (check (ret VNull) admin_token))
  /\ VObj [] = normalized VNull /\ truthy (VObj []) = true.
Proof.
  split; [ cbn; auto | ].
  exact (proj1 (proj2 (proj2 (proj2
           (check_stores_present_token VNull admin_token))))
               (VObj []) (or_intror (or_intror (or_introl eq_refl)))).
Defined.

(** X9.  [check] is idempotent for a candidate whose [expires_at] is strictly
    equal to itself ([e === e]: a string, a boolean, [null], [undefined] or a
    number other than NaN): once it has run, running it again with the same
    candidate leaves the store alone, so the periodic refresh does not
    rewrite an unchanged token. *)
Theorem check_idempotent (cand old : value) :
  strict_eq (field (normalized cand) "expires_at")
            (field (normalized cand) "expires_at") = true ->
  check (ret cand) (store_after old (trace (check (ret cand) old)))
  = unchanged.
Proof.
  intros Hprim.
  destruct (check_outcomes cand old) as [Hsame | Hstored].
  - now rewrite Hsame.
  - rewrite Hstored. cbn [stored trace fst store_after fold_left].
    rewrite check_eval. fold (normalized cand).
    fold (normalized (normalized cand)).
    rewrite (normalized_present (normalized cand)) by apply normalized_truthy.
    rewrite normalized_truthy, Hprim. cbn [negb andb].
    now destruct (negb (truthy cand)).
Qed.

Lemma check_idempotent_witness :
  strict_eq (field (normalized later_token) "expires_at")
            (field (normalized later_token) "expires_at") = true
  /\ check (ret later_token) admin_token = stored later_token
  /\ check (ret later_token)
           (store_after admin_token
                        (trace (check (ret later_token) admin_token)))
     = unchanged.
Proof.
  do 2 (split; [ reflexivity | ]).
  exact (check_idempotent later_token admin_token eq_refl).
Defined.

(** X10.  Over any sequence of calls of [check], the store holds the value it
    started with or one of the normalized candidates, and once it holds a
    token it never becomes absent again: after the candidate disappears it
    holds the empty record. *)
Theorem store_stays_present (cands : list value) (old : value) :
  In (run_checks (map ret cands) old) (old :: map normalized cands)
  /\ (truthy old = true -> truthy (run_checks (map ret cands) old) = true).
Proof.
  revert old. induction cands as [ | cand cands IH ]; intros old.
  { cbn. now split; [ left | ]. }
  cbn [map run_checks].
  destruct (IH (store_after old (trace (check (ret cand) old))))
    as [Hin Hpresent].
  destruct (check_outcomes cand old) as [Hsame | Hstored].
  - rewrite Hsame in *. cbn [unchanged trace fst store_after fold_left] in *.
    split; [ | exact Hpresent ].
    destruct Hin as [Hin | Hin]; [ now left | now right; right ].
  - rewrite Hstored in *. cbn [stored trace fst store_after fold_left] in *.
    split.
    + destruct Hin as [Hin | Hin]; [ right; now left | now right; right ].
    + intros _. apply Hpresent, normalized_truthy.
Qed.

Lemma store_stays_present_witness :
  truthy admin_token = true
  /\ run_checks (map ret [later_token; VNull; VUndef]) admin_token = VObj []
  /\ truthy (run_checks (map ret [later_token; VNull; VUndef]) admin_token)
     = true.
Proof.
  do 2 (split; [ reflexivity | ]).
  exact (proj2 (store_stays_present [later_token; VNull; VUndef] admin_token)
               eq_refl).
Defined.

(** X11.  Once [check] has normalized an absent candidate into the store, the
    guard takes the user as authenticated: a protected state that lists no
    requirement is entered with the stored record, without cancel or
    redirect, whereas the absent candidate itself is sent to the login page:
    the event is cancelled and the location set to ["/login?redirect="]
    followed by the url of the state. *)
Theorem normalized_absent_token_opens_guard
        (loose_eq : value -> value -> bool) (self : global_self)
        (cand old : value) (st : props) :
  truthy cand = false -> truthy old = true -> has_expiry old = true ->
  requires_auth (VObj st) = true -> required_claims (VObj st) = VArr [] ->
  let kept := store_after old (trace (check (ret cand) old)) in
  kept = VObj []
  /\ authenticateState loose_eq self kept (VObj st)
     = ([nav_log (VObj st)], Normal tt)
  /\ cancels (trace (authenticateState loose_eq self cand (VObj st))) = 1
  /\ authenticateState loose_eq self cand (VObj st)
     = ([PreventDefault; Debug fmt_login [field (VObj st) "name"];
         SetLocation
           (VStr ("/login?redirect=" ++ to_string (field (VObj st) "url")))],
        Normal tt)
  /\ fired (trace (authenticateState loose_eq self cand (VObj st)))
     = [SetLocation
          (VStr ("/login?redirect=" ++ to_string (field (VObj st) "url")))].
Proof.
  intros Hcand Hold Hexp Hauth Hreqs kept. subst kept.
  rewrite check_stores_empty by assumption.
  cbn [stored trace fst store_after fold_left].
  split; [ reflexivity | split ].
  - now rewrite guard_claims, Hreqs by (assumption || reflexivity).
  - now rewrite guard_login by assumption.
Qed.

Lemma normalized_absent_token_opens_guard_witness :
  truthy VNull = false /\ truthy admin_token = true
  /\ has_expiry admin_token = true
  /\ requires_auth (VObj (secret_state [])) = true
  /\ required_claims (VObj (secret_state [])) = VArr []
  /\ authenticateState
       strict_eq SelfNoRouter
       (store_after admin_token (trace (check (ret VNull) admin_token)))
       (VObj (secret_state []))
     = ([nav_log (VObj (secret_state []))], Normal tt).
Proof.
  do 5 (split; [ reflexivity | ]).
  exact (proj1 (proj2 (normalized_absent_token_opens_guard
                         strict_eq SelfNoRouter VNull admin_token
                         (secret_state [])
                         eq_refl eq_refl eq_refl eq_refl eq_refl))).
Defined.

(** ** The refresher (index.js 83-89) *)

Lemma did_app (l1 l2 : list auth_event) : did (l1 ++ l2) = did l1 ++ did l2.
Proof. apply flat_map_app. Qed.

Lemma asked_app (l1 l2 : list auth_event) :
  asked (l1 ++ l2) = asked l1 ++ asked l2.
Proof. apply flat_map_app. Qed.

Lemma did_effects (t : list effect) : did (map Did t) = t.
Proof. unfold did. induction t as [ | e t IH ]; cbn; congruence. Qed.

Lemma asked_effects (t : list effect) : asked (map Did t) = [].
Proof. unfold asked. induction t as [ | e t IH ]; cbn; congruence. Qed.

Lemma run_turns_cons (t : turn) (ts : list turn) (old : value) :
  run_turns (t :: ts) old
  = (fst (run_turns ts (store_after old (did (react old t)))),
     react old t ++ snd (run_turns ts (store_after old (did (react old t))))).
Proof.
  cbn [run_turns].
  now destruct (run_turns ts (store_after old (did (react old t)))).
Qed.

Lemma run_turns_store (ts : list turn) (old : value) :
  fst (run_turns ts old) = run_checks (resolutions ts) old.
Proof.
  revert old. induction ts as [ | t ts IH ]; intros old; [ reflexivity | ].
  rewrite run_turns_cons. cbn [fst]. rewrite IH.
  destruct t as [ | g | ]; cbn [react]; rewrite ?did_effects; reflexivity.
Qed.

Lemma run_turns_asked (ts : list turn) (old : value) :
  asked (snd (run_turns ts old)) = repeat (Post "/auth/refresh") (ticks ts).
Proof.
  revert old. induction ts as [ | t ts IH ]; intros old; [ reflexivity | ].
  rewrite run_turns_cons. cbn [snd]. rewrite asked_app, IH.
  destruct t as [ | g | ]; cbn [react]; rewrite ?asked_effects; reflexivity.
Qed.

Lemma run_turns_idle (ts : list turn) (old : value) :
  resolutions ts = [] -> did (snd (run_turns ts old)) = [].
Proof.
  revert old. induction ts as [ | t ts IH ]; intros old; [ reflexivity | ].
  rewrite run_turns_cons. cbn [snd]. rewrite did_app.
  destruct t as [ | g | ]; cbn [react]; try discriminate;
    intros Hnone; now rewrite IH.
Qed.

(** X12.  The run block of [auth] with an accessor that returns: the first check,
    then one request to the refresh endpoint and the registration of the
    interval of 60000 ms.  Afterwards, over any sequence of timer ticks and
    settled requests, the store is the one that the calls of [check] at the
    resolved requests produce, in their order; each tick posts one request
    to the refresh endpoint and nothing else is asked; and when no request
    resolves (all fail, or none settles) the store keeps its value and no
    effect is performed. *)
Theorem refresher_follows_resolutions (ts : list turn) (old : value) :
  (forall cand : value,
      auth_block (ret cand) old
      = (map Did (trace (check (ret cand) old))
           ++ [Asked (Post "/auth/refresh"); Asked (Every 60000)], Normal tt))
  /\ fst (run_turns ts old) = run_checks (resolutions ts) old
  /\ asked (snd (run_turns ts old)) = repeat (Post "/auth/refresh") (ticks ts)
  /\ (resolutions ts = [] ->
      fst (run_turns ts old) = old /\ did (snd (run_turns ts old)) = []).
Proof.
  split; [ | split; [ apply run_turns_store | split; [ apply run_turns_asked | ] ] ].
  - intros cand. unfold auth_block.
    now destruct (check_outcomes cand old) as [-> | ->].
  - intros Hnone. split; [ | now apply run_turns_idle ].
    now rewrite run_turns_store, Hnone.
Qed.

Lemma refresher_follows_resolutions_witness :
  resolutions [Tick; Rejected; Tick] = []
  /\ fst (run_turns [Tick; Rejected; Tick] admin_token) = admin_token
  /\ fst (run_turns [Tick; Resolved (ret later_token); Rejected;
                     Resolved (ret VNull)] admin_token) = VObj [].
Proof.
  split; [ reflexivity | split ].
  - exact (proj1 (proj2 (proj2 (proj2
             (refresher_follows_resolutions [Tick; Rejected; Tick]
                                            admin_token))) eq_refl)).
  - exact (proj1 (proj2
             (refresher_follows_resolutions
                [Tick; Resolved (ret later_token); Rejected;
                 Resolved (ret VNull)] admin_token))).
Defined.

(** ** The state annotator (index.js 230-238) *)

Lemma dash_no_dot (c : ascii) : Ascii.eqb (dash c) "."%char = false.
Proof.
  unfold dash. destruct (Ascii.eqb c "."%char) eqn:Hc; [ reflexivity | exact Hc ].
Qed.

Lemma dash_fixed (c : ascii) : Ascii.eqb c "."%char = false -> dash c = c.
Proof. unfold dash. now intros ->. Qed.

(** X13.  The state name written to the root scope has no dot left; replacing
    again changes nothing, so a dotted name and its dashed form are given the
    same state name; a name without dots is kept as it is; and the
    replacement works segment by segment. *)
Theorem replace_dots_normal_form (s : string) :
  has_dot (replace_dots s) = false
  /\ replace_dots (replace_dots s) = replace_dots s
  /\ (has_dot s = false -> replace_dots s = s)
  /\ (forall t : string,
         replace_dots (s ++ t) = (replace_dots s ++ replace_dots t)%string).
Proof.
  unfold has_dot. induction s as [ | c s (IH1 & IH2 & IH3 & IH4) ].
  { repeat split. }
  cbn [replace_dots list_ascii_of_string existsb String.append].
  repeat split.
  - now rewrite dash_no_dot, IH1.
  - now rewrite IH2, (dash_fixed (dash c)) by apply dash_no_dot.
  - intros [Hc Hs]%orb_false_elim. now rewrite IH3, dash_fixed.
  - intros t. now rewrite IH4.
Qed.

Lemma replace_dots_normal_form_witness :
  has_dot "home" = false /\ replace_dots "home" = "home"%string.
Proof.
  split; [ reflexivity | ].
  exact (proj1 (proj2 (proj2 (replace_dots_normal_form "home"))) eq_refl).
Defined.

(** [onStateChange] at a state whose name is a string. *)
Lemma onStateChange_named (name : value) (st : props) (s : string) :
  field (VObj st) "name" = VStr s ->
  onStateChange name (VObj st)
  = if (s =? "")%string then ([], Normal tt)
    else (Debug fmt_state_change [name; VStr s]
            :: (if truthy (field (field (VObj st) "data") "title")
                then [SetTitle (field (field (VObj st) "data") "title")]
                else [])
            ++ [SetStateName (VStr (replace_dots s))], Normal tt).
Proof.
  intros Hname. unfold onStateChange.
  rewrite (get_record (VObj st)), bind_ret, Hname by reflexivity.
  cbn [truthy]. destruct (s =? "")%string eqn:Hs; cbn [negb]; [ reflexivity | ].
  unfold debug. rewrite bind_emit.
  rewrite (get_record (VObj st)), bind_ret by reflexivity.
  unfold or_else. cbn [truthy]. rewrite Hs. cbn [negb replace_dots_value].
  destruct (truthy (field (VObj st) "data")) eqn:Hdata.
  - rewrite get_record, bind_ret by now apply truthy_record.
    now destruct (truthy (field (field (VObj st) "data") "title")).
  - now rewrite (falsy_field _ "title" Hdata).
Qed.

(** X14.  The handler of [$stateChangeStart] annotates, then guards: for a state
    whose name is a string its effects are those of [onStateChange] followed
    by those of the guard, and it completes as the guard does.  The title and
    the state name are therefore updated also when the guard cancels the
    navigation or throws. *)
Theorem handler_annotates_then_guards
        (loose_eq : value -> value -> bool) (global : global_self)
        (name token : value) (st : props) (s : string) :
  field (VObj st) "name" = VStr s ->
  let h := on_stateChangeStart loose_eq global name token (VObj st) in
  let g := authenticateState loose_eq global token (VObj st) in
  h = (trace (onStateChange name (VObj st)) ++ trace g, outcome g)
  /\ (s <> ""%string ->
      In (SetStateName (VStr (replace_dots s))) (trace h)).
Proof.
  intros Hname h g. subst h g. unfold on_stateChangeStart.
  rewrite (onStateChange_named name st s Hname).
  destruct (String.eqb_spec s "") as [Hs | Hs].
  - rewrite bind_normal. cbn [trace fst app]. split; [ reflexivity | ].
    intros Hne. now elim Hne.
  - rewrite bind_normal. cbn [trace fst]. split; [ reflexivity | ].
    intros _. apply in_or_app. left. right. apply in_or_app. right. now left.
Qed.

Lemma handler_annotates_then_guards_witness :
  field (VObj (secret_state [owner_or_denied])) "name"
  = VStr "admin.users.list"
  /\ on_stateChangeStart strict_eq SelfNoRouter (VStr "app") admin_token
                         (VObj (secret_state [owner_or_denied]))
     = ([Debug fmt_state_change [VStr "app"; VStr "admin.users.list"];
         SetTitle (VStr "Users"); SetStateName (VStr "admin-users-list");
         PreventDefault; redirect_log owner_or_denied;
         SetLocation (VStr "/denied");
         nav_log (VObj (secret_state [owner_or_denied]))], Normal tt).
Proof.
  split; [ reflexivity | ].
  exact (proj1 (handler_annotates_then_guards
                  strict_eq SelfNoRouter (VStr "app") admin_token
                  (secret_state [owner_or_denied]) "admin.users.list"
                  eq_refl)).
Defined.

(** X15.  [onStateChange] only annotates: whatever it is given, it never cancels
    the event, never redirects and never assigns the token. *)
Theorem annotator_only_annotates (name toState : value) :
  let t := trace (onStateChange name toState) in
  fired t = [] /\ cancels t = 0 /\ existsb stores t = false.
Proof.
  cbv zeta. unfold onStateChange.
  destruct (nullish toState) eqn:HtoState.
  { rewrite get_nullish by assumption. now cbn. }
  rewrite !(get_record toState), bind_ret by assumption.
  destruct (truthy (field toState "name")) eqn:Hname; cbn [negb];
    [ | now cbn ].
  unfold debug, or_else. rewrite bind_emit, bind_ret, Hname.
  destruct (truthy (field toState "data")) eqn:Hdata.
  - rewrite get_record, bind_ret by now apply truthy_record.
    destruct (truthy (field (field toState "data") "title"));
      destruct (field toState "name"); now cbn.
  - destruct (field toState "name"); now cbn.
Qed.

(** ** The guard leaves the root scope alone (index.js 242-302) *)

Lemma stores_app (t1 t2 : list effect) :
  existsb stores (t1 ++ t2) = existsb stores t1 || existsb stores t2.
Proof. apply existsb_app. Qed.

Lemma step_stores_nothing
      (loose_eq : value -> value -> bool) (self : global_self)
      (token : value) (failed : bool) (claim : value) :
  existsb stores (trace (check_claim loose_eq self token failed claim)) = false.
Proof.
  unfold check_claim. destruct failed; [ reflexivity | ].
  destruct (nullish token) eqn:Htoken.
  { now rewrite get_nullish by assumption. }
  rewrite get_record, bind_ret by assumption.
  destruct (field token "claims") as [ | | | | | | cs ]; try reflexivity.
  cbn [value_forEach].
  pose proof (scan_silent loose_eq claim cs false) as Hsilent.
  destruct (forEach (match_entry loose_eq claim) cs false) as [t [found | e]];
    cbn in Hsilent; subst t; [ | reflexivity ].
  rewrite (bind_ret found).
  destruct (nullish claim) eqn:Hclaim.
  { destruct found; now rewrite get_nullish by assumption. }
  rewrite !(get_record claim), !bind_ret by assumption.
  destruct found; [ reflexivity | ].
  destruct (truthy (field claim "redirect")); [ reflexivity | ].
  destruct (truthy (field claim "state")); [ | reflexivity ].
  destruct self; cbn [self_state_go];
    rewrite ?(get_record claim) by assumption; reflexivity.
Qed.

Lemma loop_stores_nothing
      (loose_eq : value -> value -> bool) (self : global_self)
      (token : value) (l : list value) (failed : bool) :
  existsb stores
          (trace (forEach (check_claim loose_eq self token) l failed)) = false.
Proof.
  revert failed. induction l as [ | x l IH ]; intros failed; [ reflexivity | ].
  cbn [forEach].
  pose proof (step_stores_nothing loose_eq self token failed x) as Hstep.
  destruct (check_claim loose_eq self token failed x) as [t [b | e]];
    cbn [trace fst] in Hstep.
  - rewrite bind_normal. cbn [trace fst]. now rewrite stores_app, Hstep, IH.
  - exact Hstep.
Qed.

(** X16.  The guard reads the token and never assigns it: whatever the token, the
    state and the binding of [self] are, and however the guard completes, the
    store holds afterwards what it held before. *)
Theorem guard_never_stores
        (loose_eq : value -> value -> bool) (self : global_self)
        (token toState old : value) :
  let t := trace (authenticateState loose_eq self token toState) in
  existsb stores t = false /\ store_after old t = old.
Proof.
  cbv zeta.
  assert (Hnone : existsb stores
                    (trace (authenticateState loose_eq self token toState))
                  = false).
  { unfold authenticateState.
    destruct (nullish toState) eqn:HtoState.
    { now rewrite get_nullish by assumption. }
    rewrite !(get_record toState), bind_ret by assumption.
    rewrite !get_record, !bind_ret by now apply or_else_record.
    destruct (truthy (field (or_else (field toState "data") (VObj []))
                            "authenticate")); [ | reflexivity ].
    destruct (truthy token); [ | reflexivity ]. cbn [negb].
    destruct (or_else (field (or_else (field toState "data") (VObj []))
                             "claims") (VArr []))
      as [ | | | | | | l ]; try reflexivity.
    cbn [value_forEach].
    pose proof (loop_stores_nothing loose_eq self token l false) as Hloop.
    destruct (forEach (check_claim loose_eq self token) l false)
      as [t [b | e]]; cbn [trace fst] in Hloop.
    - rewrite bind_normal. cbn [trace fst]. rewrite stores_app, Hloop.
      reflexivity.
    - exact Hloop. }
  split; [ exact Hnone | now apply store_after_kept ].
Qed.

(** ** The builder (index.js 13-49, 104-142) *)

(** X17.  [module] takes its dependencies as one array or as separate arguments,
    with the same result when the first of them is not itself an array; the
    arguments that follow an array are dropped; and a call without arguments
    adds nothing. *)
Theorem module_array_or_arguments
        (l more : list value) (self : Builder.AngularSetup) :
  Builder.module (VArr l :: more) self = Builder.module [VArr l] self
  /\ Builder.deps (Builder.module [VArr l] self) = Builder.deps self ++ l
  /\ (is_array (hd VUndef l) = false ->
      Builder.module l self = Builder.module [VArr l] self)
  /\ Builder.deps (Builder.module [] self) = Builder.deps self.
Proof.
  repeat split.
  - intros Hhead. destruct l as [ | x l ]; [ reflexivity | ].
    now destruct x.
  - cbn. apply app_nil_r.
Qed.

Lemma module_array_or_arguments_witness :
  is_array (hd VUndef [VStr "ngAnimate"; VStr "ngTouch"]) = false
  /\ Builder.deps (Builder.module [VStr "ngAnimate"; VStr "ngTouch"]
                                  (Builder.create (VStr "ui.router")
                                                  (VStr "app")))
     = [VStr "ui.router"; VStr "ngAnimate"; VStr "ngTouch"].
Proof.
  split; [ reflexivity | ].
  exact (f_equal Builder.deps
                 (proj1 (proj2 (proj2 (module_array_or_arguments
                    [VStr "ngAnimate"; VStr "ngTouch"] []
                    (Builder.create (VStr "ui.router") (VStr "app")))))
                        eq_refl)).
Defined.

Lemma chain_fields (cs : list Builder.call) (self : Builder.AngularSetup) :
  Builder.chain cs self
  = {| Builder.name := Builder.name self;
       Builder.deps := Builder.deps self ++ flat_map Builder.module_part cs;
       Builder.configs :=
         Builder.configs self ++ flat_map Builder.pushed_config cs;
       Builder.runs := Builder.runs self ++ flat_map Builder.pushed_run cs |}.
Proof.
  unfold Builder.chain. revert self.
  induction cs as [ | c cs IH ]; intros self; cbn [fold_left flat_map].
  - rewrite !app_nil_r. now destruct self.
  - rewrite IH. destruct c as [args | f | f | n opts | g];
      cbn [Builder.apply Builder.module Builder.config Builder.run
           Builder.state Builder.auth Builder.name Builder.deps
           Builder.configs Builder.runs Builder.module_part
           Builder.pushed_config Builder.pushed_run];
      rewrite <- ?app_assoc, ?app_nil_r; reflexivity.
Qed.

(** X18.  Whatever calls of [module], [config], [run], [state] and [auth] are
    chained on a new builder, and in whatever order, its name is kept, the
    router stays the first dependency, and the dependencies that follow are
    those given to [module], in the order of the calls: nothing is dropped,
    reordered or deduplicated, and further such calls only append.  The same
    holds through [use] when the plugin itself only makes such calls on the
    builder it is handed (a plugin is otherwise free to do anything to
    it). *)
Theorem chain_accumulates_deps
        (cs : list Builder.call) (router app : value) :
  let b := Builder.chain cs (Builder.create router app) in
  Builder.name b = app
  /\ Builder.deps b = router :: flat_map Builder.module_part cs
  /\ (forall cs' : list Builder.call,
         exists more : list value,
           Builder.deps (Builder.chain cs' b) = Builder.deps b ++ more)
  /\ (forall cs' : list Builder.call,
         Builder.name (Builder.use (Builder.chain cs') b) = app
         /\ Builder.deps (Builder.use (Builder.chain cs') b)
            = router :: flat_map Builder.module_part (cs ++ cs')).
Proof.
  cbv zeta. rewrite chain_fields. cbn. repeat split.
  - intros cs'. rewrite chain_fields. cbn. now eexists.
  - unfold Builder.use. now rewrite chain_fields.
  - unfold Builder.use. rewrite chain_fields. cbn.
    now rewrite flat_map_app.
Qed.

Section DoneFacts.

Variable throws : Builder.fn -> option exn.

Lemma invoke_all_app (self : Builder.AngularSetup)
      (l1 l2 : list Builder.callback) :
  Builder.invoke_all throws self (l1 ++ l2)
  = match Builder.invoke_all throws self l1 with
    | (t1, Normal _) =>
        (t1 ++ fst (Builder.invoke_all throws self l2),
         snd (Builder.invoke_all throws self l2))
    | (t1, Throw e) => (t1, Throw e)
    end.
Proof.
  induction l1 as [ | c l1 IH ]; cbn [app Builder.invoke_all].
  - now destruct (Builder.invoke_all throws self l2).
  - destruct (Builder.invoke throws self c) as [t [[] | e]]; [ | reflexivity ].
    rewrite IH.
    destruct (Builder.invoke_all throws self l1) as [t1 [[] | e1]];
      [ | reflexivity ].
    now rewrite app_assoc.
Qed.

(** The calls of the functions pushed on [configs], while none throws. *)
Lemma invoke_pushed_configs (self : Builder.AngularSetup)
      (cs : list Builder.call) :
  (forall f : Builder.fn, In (Builder.CallConfig f) cs -> throws f = None) ->
  Builder.invoke_all throws self (flat_map Builder.pushed_config cs)
  = (flat_map (Builder.config_part (Builder.name self)) cs, Normal tt).
Proof.
  induction cs as [ | c cs IH ]; intros Hcs; [ reflexivity | ].
  cbn [flat_map]. rewrite invoke_all_app, IH
    by (intros f Hf; apply Hcs; now right).
  destruct c as [args | f | f | n opts | g]; try reflexivity.
  cbn. now rewrite (Hcs f) by now left.
Qed.

Lemma invoke_pushed_runs (self : Builder.AngularSetup)
      (cs : list Builder.call) :
  (forall f : Builder.fn, In (Builder.CallRun f) cs -> throws f = None) ->
  Builder.invoke_all throws self (flat_map Builder.pushed_run cs)
  = (flat_map Builder.run_part cs, Normal tt).
Proof.
  induction cs as [ | c cs IH ]; intros Hcs; [ reflexivity | ].
  cbn [flat_map]. rewrite invoke_all_app, IH
    by (intros f Hf; apply Hcs; now right).
  destruct c as [args | f | f | n opts | g]; try reflexivity.
  cbn. now rewrite (Hcs f) by now left.
Qed.

(** What [run] and [auth] contribute: calls of functions and the run block
    of [auth]. *)
Lemma run_part_events (cs : list Builder.call) (ev : Builder.setup_event) :
  In ev (flat_map Builder.run_part cs) ->
  (exists g : Builder.fn, ev = Builder.Call g)
  \/ (exists g : Builder.fn, ev = Builder.Run (Builder.AuthBlock g)).
Proof.
  induction cs as [ | c cs IH ]; [ now intros [] | ].
  cbn [flat_map]. intros [Hin | Hin]%in_app_or; [ | now apply IH ].
  destruct c as [args | g | g | n opts | g]; cbn in Hin;
    try (now elim Hin).
  - destruct Hin as [<- | []]. left. now exists g.
  - destruct Hin as [<- | []]. right. now exists g.
Qed.

Lemma config_part_registers_no_run (app : value) (cs : list Builder.call) :
  filter Builder.is_run (flat_map (Builder.config_part app) cs) = [].
Proof.
  induction cs as [ | c cs IH ]; [ reflexivity | ].
  cbn [flat_map]. rewrite filter_app, IH.
  now destruct c.
Qed.

End DoneFacts.

(** X19.  [done] on a chain of calls none of whose functions throws: the module is
    created with the accumulated dependencies, the default config block is
    registered first, then come the contributions of [config] and [state]
    in the order of their calls, then those of [run] and [auth] in the order
    of their calls, and the default run block (the first annotation and the
    navigation handler) is registered last.  However the calls were
    interleaved, everything pushed on [configs] precedes everything pushed
    on [runs]. *)
Theorem done_orders_the_setup
        (throws : Builder.fn -> option exn)
        (cs : list Builder.call) (router app : value) :
  (forall f : Builder.fn, throws f = None) ->
  Builder.done throws (Builder.chain cs (Builder.create router app))
  = ([Builder.AngularModule app (router :: flat_map Builder.module_part cs);
      Builder.Log Builder.fmt_setting_up
                  [app; VArr (router :: flat_map Builder.module_part cs)];
      Builder.Config Builder.DefaultConfig]
       ++ flat_map (Builder.config_part app) cs
       ++ flat_map Builder.run_part cs
       ++ [Builder.Run (Builder.DefaultRun app)], Normal tt).
Proof.
  intros Hquiet. rewrite chain_fields. unfold Builder.done.
  cbn [Builder.create Builder.name Builder.deps Builder.configs Builder.runs
       List.app].
  rewrite invoke_pushed_configs by (intros f _; apply Hquiet).
  rewrite invoke_pushed_runs by (intros f _; apply Hquiet).
  reflexivity.
Qed.

Lemma done_orders_the_setup_witness :
  (forall f : Builder.fn, (fun _ : Builder.fn => @None exn) f = None)
  /\ Builder.done
       (fun _ => None)
       (Builder.chain
          [Builder.CallAuth "getToken"; Builder.CallRun "warmCache";
           Builder.CallState (VStr "home") (VObj []);
           Builder.CallModule [VStr "ngAnimate"];
           Builder.CallConfig "setLocale"]
          (Builder.create (VStr "ui.router") (VStr "app")))
     = ([Builder.AngularModule (VStr "app")
                               [VStr "ui.router"; VStr "ngAnimate"];
         Builder.Log Builder.fmt_setting_up
                     [VStr "app"; VArr [VStr "ui.router"; VStr "ngAnimate"]];
         Builder.Config Builder.DefaultConfig;
         Builder.Log Builder.fmt_state_setup [VStr "app"; VStr "home"];
         Builder.Config (Builder.StateBlock (VStr "home") (VObj []));
         Builder.Call "setLocale";
         Builder.Run (Builder.AuthBlock "getToken");
         Builder.Call "warmCache";
         Builder.Run (Builder.DefaultRun (VStr "app"))], Normal tt).
Proof.
  split; [ reflexivity | ].
  exact (done_orders_the_setup
           (fun _ => None)
           [Builder.CallAuth "getToken"; Builder.CallRun "warmCache";
            Builder.CallState (VStr "home") (VObj []);
            Builder.CallModule [VStr "ngAnimate"];
            Builder.CallConfig "setLocale"]
           (VStr "ui.router") (VStr "app") (fun _ => eq_refl)).
Defined.

(** X20.  When a function given to [config] throws, [done] is left at that
    call.  What has happened by then is exactly: the module was created with
    the accumulated dependencies, the line of the setup was logged, the
    default config block was registered, and the functions and states
    configured before the throwing one were handled in the order of their
    calls.  Nothing pushed on [runs] is called, and no run block is
    registered, so the application gets neither the token refresher nor the
    navigation guard. *)
Theorem throwing_config_stops_setup
        (throws : Builder.fn -> option exn)
        (cs1 cs2 : list Builder.call) (f : Builder.fn) (e : exn)
        (router app : value) :
  throws f = Some e ->
  (forall g : Builder.fn, In (Builder.CallConfig g) cs1 -> throws g = None) ->
  let cs := cs1 ++ Builder.CallConfig f :: cs2 in
  let m := Builder.done throws
             (Builder.chain cs (Builder.create router app)) in
  snd m = Throw e
  /\ filter Builder.is_run (fst m) = []
  /\ fst m
     = [Builder.AngularModule
          app (router :: flat_map Builder.module_part cs);
        Builder.Log Builder.fmt_setting_up
                    [app; VArr (router :: flat_map Builder.module_part cs)];
        Builder.Config Builder.DefaultConfig]
         ++ flat_map (Builder.config_part app) cs1
         ++ [Builder.Call f]
  /\ (forall ev : Builder.setup_event,
         In ev (flat_map Builder.run_part cs) ->
         ~ In ev (flat_map (Builder.config_part app) cs1 ++ [Builder.Call f]) ->
         ~ In ev (fst m)).
Proof.
  intros Hf Hcs1 cs m. subst m cs.
  set (self := Builder.chain _ _).
  assert (Hname : Builder.name self = app).
  { subst self. now rewrite chain_fields. }
  assert (Hdeps : Builder.deps self
                  = router :: flat_map Builder.module_part
                                       (cs1 ++ Builder.CallConfig f :: cs2)).
  { subst self. now rewrite chain_fields. }
  assert (Hconfigs : Builder.configs self
                     = flat_map Builder.pushed_config cs1
                         ++ Builder.UserFn f
                         :: flat_map Builder.pushed_config cs2).
  { subst self. rewrite chain_fields. cbn [Builder.configs Builder.create].
    now rewrite flat_map_app. }
  assert (Hinvoke : Builder.invoke_all throws self (Builder.configs self)
                    = (flat_map (Builder.config_part app) cs1
                         ++ [Builder.Call f], Throw e)).
  { rewrite Hconfigs, invoke_all_app, invoke_pushed_configs, Hname
      by assumption.
    cbn [Builder.invoke_all Builder.invoke]. now rewrite Hf. }
  unfold Builder.done. rewrite Hinvoke, Hname, Hdeps. cbn [fst snd].
  split; [ reflexivity | split; [ | split; [ reflexivity | ] ] ].
  - cbn [List.app filter Builder.is_run].
    now rewrite filter_app, config_part_registers_no_run.
  - intros ev Hrun Hnot Hin. apply in_app_or in Hin.
    destruct Hin as [Hin | Hin]; [ | now elim Hnot ].
    apply run_part_events in Hrun.
    destruct Hrun as [[g ->] | [g ->]];
      destruct Hin as [H | [H | [H | []]]]; discriminate H.
Qed.

Lemma throwing_config_stops_setup_witness :
  let throws := fun f : Builder.fn =>
                  if (f =? "setLocale")%string then Some TypeError else None in
  throws "setLocale" = Some TypeError
  /\ snd (Builder.done
            throws
            (Builder.chain
               ([Builder.CallAuth "getToken";
                 Builder.CallState (VStr "home") (VObj [])]
                  ++ Builder.CallConfig "setLocale"
                  :: [Builder.CallRun "warmCache"])
               (Builder.create (VStr "ui.router") (VStr "app"))))
     = Throw TypeError.
Proof.
  cbv zeta. split; [ reflexivity | ].
  refine (proj1 (throwing_config_stops_setup
                   (fun f : Builder.fn =>
                      if (f =? "setLocale")%string then Some TypeError
                      else None)
                   [Builder.CallAuth "getToken";
                    Builder.CallState (VStr "home") (VObj [])]
                   [Builder.CallRun "warmCache"] "setLocale" TypeError
                   (VStr "ui.router") (VStr "app") eq_refl _)).
  intros g [H | [H | []]]; discriminate H.
Defined.

Section DoneOutcome.

Variable throws : Builder.fn -> option exn.

Lemma invoke_all_returns (self : Builder.AngularSetup)
      (l : list Builder.callback) :
  existsb (Builder.fails throws) l = false ->
  snd (Builder.invoke_all throws self l) = Normal tt.
Proof.
  induction l as [ | c l IH ]; cbn [existsb Builder.invoke_all];
    [ reflexivity | ].
  intros [Hc Hl]%orb_false_elim. specialize (IH Hl).
  destruct c as [f | n opts | g]; cbn [Builder.invoke Builder.fails] in *.
  - destruct (throws f); [ discriminate | ].
    now destruct (Builder.invoke_all throws self l).
  - now destruct (Builder.invoke_all throws self l).
  - now destruct (Builder.invoke_all throws self l).
Qed.

Lemma invoke_all_throws (self : Builder.AngularSetup)
      (l : list Builder.callback) :
  existsb (Builder.fails throws) l = true ->
  exists e : exn, snd (Builder.invoke_all throws self l) = Throw e.
Proof.
  induction l as [ | c l IH ]; cbn [existsb Builder.invoke_all];
    [ discriminate | ].
  destruct c as [f | n opts | g]; cbn [Builder.invoke Builder.fails orb].
  - destruct (throws f) as [e | ]; [ now exists e | ].
    intros [e He]%IH. exists e.
    now destruct (Builder.invoke_all throws self l).
  - intros [e He]%IH. exists e.
    now destruct (Builder.invoke_all throws self l).
  - intros [e He]%IH. exists e.
    now destruct (Builder.invoke_all throws self l).
Qed.

Lemma invoke_all_no_default_run (self : Builder.AngularSetup)
      (l : list Builder.callback) (n : value) :
  ~ In (Builder.Run (Builder.DefaultRun n))
       (fst (Builder.invoke_all throws self l)).
Proof.
  induction l as [ | c l IH ]; cbn [Builder.invoke_all]; [ now intros [] | ].
  destruct c as [f | m opts | g]; cbn [Builder.invoke].
  - destruct (throws f).
    + now intros [H | []].
    + destruct (Builder.invoke_all throws self l). cbn [fst] in *.
      now intros [H | H].
  - destruct (Builder.invoke_all throws self l). cbn [fst] in *.
    now intros [H | [H | H]].
  - destruct (Builder.invoke_all throws self l). cbn [fst] in *.
    now intros [H | H].
Qed.

End DoneOutcome.

(** X21.  [done] returns exactly when none of the functions held in [configs] and
    [runs] throws, and the default run block, which installs the navigation
    handler, is registered exactly when [done] returns: an exception in any
    registered function leaves the application without its guard. *)
Theorem guard_installed_iff_done_returns
        (throws : Builder.fn -> option exn) (self : Builder.AngularSetup) :
  let m := Builder.done throws self in
  (snd m = Normal tt
   <-> existsb (Builder.fails throws)
               (Builder.configs self ++ Builder.runs self) = false)
  /\ (In (Builder.Run (Builder.DefaultRun (Builder.name self))) (fst m)
      <-> snd m = Normal tt).
Proof.
  cbv zeta. unfold Builder.done. rewrite existsb_app.
  pose proof (invoke_all_returns throws self (Builder.configs self)) as Hc1.
  pose proof (invoke_all_throws throws self (Builder.configs self)) as Hc2.
  pose proof (invoke_all_returns throws self (Builder.runs self)) as Hr1.
  pose proof (invoke_all_throws throws self (Builder.runs self)) as Hr2.
  pose proof (invoke_all_no_default_run throws self (Builder.configs self)
                                        (Builder.name self)) as Hn1.
  pose proof (invoke_all_no_default_run throws self (Builder.runs self)
                                        (Builder.name self)) as Hn2.
  destruct (Builder.invoke_all throws self (Builder.configs self))
    as [t1 [[] | e1]];
    destruct (existsb (Builder.fails throws) (Builder.configs self));
    cbn [fst snd orb] in *;
    try (destruct (Hc2 eq_refl) as [e He]; discriminate He);
    try (specialize (Hc1 eq_refl); discriminate Hc1).
  - destruct (Builder.invoke_all throws self (Builder.runs self))
      as [t2 [[] | e2]];
      destruct (existsb (Builder.fails throws) (Builder.runs self));
      cbn [fst snd] in *;
      try (destruct (Hr2 eq_refl) as [e He]; discriminate He);
      try (specialize (Hr1 eq_refl); discriminate Hr1).
    + split; split; intros _; try reflexivity.
      rewrite !in_app_iff. cbn. auto 10.
    + split; split; try discriminate.
      intros H. rewrite !in_app_iff in H. cbn in H. intuition discriminate.
  - split; split; try discriminate.
    intros H. rewrite !in_app_iff in H. cbn in H. intuition discriminate.
Qed.

Lemma guard_installed_iff_done_returns_witness :
  let throws := fun f : Builder.fn =>
                  if (f =? "warmCache")%string then Some (Error "cold")
                  else None in
  let self := Builder.chain
                [Builder.CallAuth "getToken"; Builder.CallRun "warmCache"]
                (Builder.create (VStr "ui.router") (VStr "app")) in
  existsb (Builder.fails throws) (Builder.configs self ++ Builder.runs self)
  = true
  /\ snd (Builder.done throws self) <> Normal tt
  /\ ~ In (Builder.Run (Builder.DefaultRun (Builder.name self)))
         (fst (Builder.done throws self)).
Proof.
  cbv zeta. split; [ reflexivity | ].
  pose proof (guard_installed_iff_done_returns
                (fun f : Builder.fn =>
                   if (f =? "warmCache")%string then Some (Error "cold")
                   else None)
                (Builder.chain
                   [Builder.CallAuth "getToken"; Builder.CallRun "warmCache"]
                   (Builder.create (VStr "ui.router") (VStr "app"))))
    as [Hreturns Hinstalled].
  cbv zeta in Hreturns, Hinstalled.
  assert (Hthrows : snd (Builder.done
                           (fun f : Builder.fn =>
                              if (f =? "warmCache")%string
                              then Some (Error "cold") else None)
                           (Builder.chain
                              [Builder.CallAuth "getToken";
                               Builder.CallRun "warmCache"]
                              (Builder.create (VStr "ui.router") (VStr "app"))))
                    <> Normal tt).
  { intros Hnormal. apply (proj1 Hreturns) in Hnormal. discriminate Hnormal. }
  split; [ exact Hthrows | ].
  intros Hin. apply Hthrows. exact (proj1 Hinstalled Hin).
Defined.
